(** * Prayer hall layout: row builder, column marking and cut intervals

    A shallow embedding of [prayer_hall.py].

    Numbers.  The program computes with Python floats (doubles).  They
    are modelled as rationals ([Q]) whose sums and differences are exact.
    The statements use of the arithmetic what rounding keeps: the order of
    the values, the copying of a value from one place to another, and that
    adding a height that is not negative (not positive) does not move a
    sum down (up).  What would need an exact sum is not stated: neither
    that the row builder comes to an end when the heights are positive (a
    double cursor can stop moving, 1e16 + 1.0 being 1e16), nor how high a
    row is.  NaN and the infinities are not values of the model, and
    [float] on a string is a parameter with rational values.

    Containers.  [forced_heights] is a Python dict keyed by ints: a
    [gmap Z Q].  [columns_to_ignore] is a Python set of labels: a
    [gset string].  Rows, columns and intervals are Python tuples kept in
    Python lists: Rocq tuples in lists.

    Effects.  [build_rows] is a [while True] loop: it is run with a fuel,
    one unit per turn, and a result is stated for the fuel that gives it.  Exceptions are
    the [Raise] outcome.  What [plot_prayer_hall] draws and prints is
    returned as data. *)

From Stdlib Require Import QArith Lqa Ascii String.
From stdpp Require Import gmap strings list fin_maps sorting.

Open Scope Q_scope.

(** ** Outcomes of a call *)

(** Why a [ValueError] was raised in [parse_columns]. *)
Inductive value_error :=
| InvalidColumnLine (line : string)   (* raise ValueError(f"Invalid column line: '{line}'") *)
| TooManyValuesToUnpack               (* lbl, sx, sy, scirc = parts, with more than 4 parts *)
| CouldNotConvertToFloat (s : string) (* float(s) on a string that is no number *).

Inductive exn :=
| ValueError (why : value_error).

(** A call returns, raises, or is cut off by the fuel. *)
Inductive outcome (A : Type) :=
| Ok (a : A)
| Raise (e : exn)
| OutOfFuel.
Arguments Ok {A} a.
Arguments Raise {A} e.
Arguments OutOfFuel {A}.

(** ** Comparisons on floats *)

(** [a >= b] *)
Definition Qge_bool (a b : Q) : bool := Qle_bool b a.
(** [a > b] *)
Definition Qgt_bool (a b : Q) : bool := negb (Qle_bool a b).
(** [a < b] *)
Definition Qlt_bool (a b : Q) : bool := negb (Qle_bool b a).

(** Python's [max(a, b)]: the first argument unless the second is larger. *)
Definition py_max (a b : Q) : Q := if Qgt_bool b a then b else a.

(** ** Row building *)

(** A row is the tuple [(row_index, y_start, y_end)]. *)
Definition row : Type := Z * Q * Q.

Definition row_index (r : row) : Z := r.1.1.
Definition y_start (r : row) : Q := r.1.2.
Definition y_end (r : row) : Q := r.2.

(** [forced_heights.get(i, default_height)] *)
Definition resolved_height (forced_heights : gmap Z Q) (default_height : Q) (i : Z) : Q :=
  default (default_height) (forced_heights !! i).

(** The [while True] loop of [build_rows]; one unit of fuel per turn. *)
Fixpoint build_rows_loop (fuel : nat) (total_length default_height : Q)
    (forced_heights : gmap Z Q) (rows : list row) (cur_y : Q) (i : Z)
    : outcome (list row) :=
  match fuel with
  | O => OutOfFuel
  | S fuel' =>
      if Qge_bool cur_y total_length then Ok rows
      else
        let forced_h := resolved_height forced_heights default_height i in
        let y_end := cur_y + forced_h in
        let y_end := if Qgt_bool y_end total_length then total_length else y_end in
        let rows := rows ++ [(i, cur_y, y_end)] in
        let cur_y := y_end in
        let i := (i + 1)%Z in
        if Qge_bool cur_y total_length then Ok rows
        else build_rows_loop fuel' total_length default_height forced_heights rows cur_y i
  end.

Definition build_rows (fuel : nat) (total_length default_height : Q)
    (forced_heights : gmap Z Q) : outcome (list row) :=
  build_rows_loop fuel total_length default_height forced_heights [] 0 1%Z.

(** ** Parsing *)

(** [np.pi] is the double nearest to pi, which is this rational exactly. *)
Definition np_pi : Q := 884279719003555 # 281474976710656.

(** [circumference_to_radius]: [float(circum_m) / (2.0 * np.pi)] *)
Definition circumference_to_radius (circum_m : Q) : Q := circum_m / (2 * np_pi).

(** A column is the tuple [(label, cx, cy, radius)]. *)
Definition column : Type := string * Q * Q * Q.

Definition col_label (c : column) : string := c.1.1.1.
Definition col_cx (c : column) : Q := c.1.1.2.
Definition col_cy (c : column) : Q := c.1.2.
Definition col_radius (c : column) : Q := c.2.

(** Text is a sequence of code points below 256.  [str.isspace] on them:
    tab to carriage return, the four separators, space, NEL and the
    no-break space. *)
Definition py_isspace (c : ascii) : bool :=
  let n := nat_of_ascii c in
  ((9 <=? n)%nat && (n <=? 13)%nat) || ((28 <=? n)%nat && (n <=? 32)%nat)
  || (n =? 133)%nat || (n =? 160)%nat.

(** The line boundaries of [str.splitlines]. *)
Definition py_islinebreak (c : ascii) : bool :=
  let n := nat_of_ascii c in
  ((10 <=? n)%nat && (n <=? 13)%nat) || ((28 <=? n)%nat && (n <=? 30)%nat)
  || (n =? 133)%nat.

Fixpoint lstrip (s : string) : string :=
  match s with
  | EmptyString => EmptyString
  | String c s' => if py_isspace c then lstrip s' else s
  end.

Fixpoint rstrip (s : string) : string :=
  match s with
  | EmptyString => EmptyString
  | String c s' =>
      match rstrip s' with
      | EmptyString => if py_isspace c then EmptyString else String c EmptyString
      | t => String c t
      end
  end.

(** [s.strip()] *)
Definition strip (s : string) : string := rstrip (lstrip s).

(** [s.split(sep)] for a one-character separator: always at least one part. *)
Fixpoint split (sep : ascii) (s : string) : list string :=
  match s with
  | EmptyString => [EmptyString]
  | String c s' =>
      if Ascii.eqb c sep then EmptyString :: split sep s'
      else match split sep s' with
           | [] => [String c EmptyString]
           | p :: ps => String c p :: ps
           end
  end.

(** [s.splitlines()]: a carriage return followed by a line feed is one
    boundary, and a final boundary opens no further line. *)
Fixpoint splitlines (s : string) : list string :=
  match s with
  | EmptyString => []
  | String c s' =>
      if py_islinebreak c then
        EmptyString ::
          (if Ascii.eqb c "013"%char then
             match s' with
             | String c' s'' => if Ascii.eqb c' "010"%char then splitlines s'' else splitlines s'
             | EmptyString => []
             end
           else splitlines s')
      else match splitlines s' with
           | [] => [String c EmptyString]
           | l :: ls => String c l :: ls
           end
  end.

Definition is_empty_string (s : string) : bool :=
  match s with EmptyString => true | _ => false end.

#[global] Instance outcome_bind : MBind outcome := fun A B k m =>
  match m with
  | Ok a => k a
  | Raise e => Raise e
  | OutOfFuel => OutOfFuel
  end.

#[global] Instance outcome_fmap : FMap outcome := fun A B f m =>
  match m with
  | Ok a => Ok (f a)
  | Raise e => Raise e
  | OutOfFuel => OutOfFuel
  end.

Section Parsing.

(** [float(s)] on a string: the number, or [None] where Python raises
    [ValueError]. *)
Variable py_float : string -> option Q.

Definition float_of (s : string) : outcome Q :=
  match py_float s with
  | Some q => Ok q
  | None => Raise (ValueError (CouldNotConvertToFloat s))
  end.

(** The body of the [for line in lines] loop of [parse_columns], from
    [parts = ...] on, for a stripped line that is not empty. *)
Definition parse_column_line (line : string) : outcome column :=
  let parts := map strip (split ","%char line) in
  if (length parts <? 4)%nat then Raise (ValueError (InvalidColumnLine line))
  else
    match parts with
    | [lbl; sx; sy; scirc] =>
        cx ← float_of sx;
        cy ← float_of sy;
        c_circ ← float_of scirc;
        let cr := circumference_to_radius c_circ in
        Ok (lbl, cx, cy, cr)
    | _ => Raise (ValueError TooManyValuesToUnpack)
    end.

Fixpoint parse_columns_loop (lines : list string) (columns : list column)
    : outcome (list column) :=
  match lines with
  | [] => Ok columns
  | line :: lines' =>
      let line := strip line in
      if is_empty_string line then parse_columns_loop lines' columns
      else
        c ← parse_column_line line;
        parse_columns_loop lines' (columns ++ [c])
  end.

Definition parse_columns (txt : string) : outcome (list column) :=
  let lines := splitlines (strip txt) in
  parse_columns_loop lines [].

End Parsing.

(** ** Visualization *)

(** A horizontal span [(x_min, x_max)]. *)
Definition interval : Type := Q * Q.

(** [in_band(cy, ystart, yend)] *)
Definition in_band (cy ystart yend : Q) : bool :=
  Qge_bool cy ystart && Qlt_bool cy yend.

(** [custom_cols]: the columns whose label is not in [columns_to_ignore]. *)
Definition custom_cols (columns : list column) (columns_to_ignore : gset string)
    : list column :=
  List.filter (fun c => negb (bool_decide (col_label c ∈ columns_to_ignore))) columns.

(** An entry of [row_data]: [(idx, ys, ye, is_custom, row_cols)]. *)
Definition row_entry : Type := Z * Q * Q * bool * list column.

(** [bool(row_cols)] *)
Definition py_bool {A} (l : list A) : bool :=
  match l with [] => false | _ => true end.

(** The body of the loop that marks each row. *)
Definition mark_row (custom : list column) (r : row) : row_entry :=
  let '(idx, ys, ye) := r in
  let row_cols := List.filter (fun c => in_band (col_cy c) ys ye) custom in
  let is_custom := py_bool row_cols in
  (idx, ys, ye, is_custom, row_cols).

Definition row_data (rows : list row) (columns : list column)
    (columns_to_ignore : gset string) : list row_entry :=
  map (mark_row (custom_cols columns columns_to_ignore)) rows.

(** What is put on the axes. *)
Inductive artist :=
| Rectangle (x y width height : Q) (facecolor : string)
| RowText (x y : Q) (i : Z) (row_height : Q) (is_custom : bool)
| Circle (cx cy cr : Q)
| ColumnText (x y : Q) (lbl : string).

Definition draw_row (hall_width : Q) (e : row_entry) : list artist :=
  let '(i, ys, ye, is_custom, row_cols) := e in
  let row_height := ye - ys in
  let color := if is_custom then "orange"%string else "green"%string in
  let label_y := ys + row_height * (1 # 2) in
  [Rectangle 0 ys hall_width row_height color;
   RowText (hall_width * (1 # 2)) label_y i row_height is_custom].

Definition draw_column (c : column) : list artist :=
  let '(lbl, cx, cy, cr) := c in
  [Circle cx cy cr; ColumnText cx cy lbl].

(** One column's span, clamped to the hall; kept when it has a width. *)
Definition clamp_cut (hall_width : Q) (c : column) : option interval :=
  let '(lbl, cx, cy, cr) := c in
  let x_min := cx - cr in
  let x_max := cx + cr in
  let x_min := if Qlt_bool x_min 0 then 0 else x_min in
  let x_max := if Qgt_bool x_max hall_width then hall_width else x_max in
  if Qgt_bool x_max x_min then Some (x_min, x_max) else None.

(** The [cuts] list before sorting. *)
Definition cuts_of (hall_width : Q) (row_cols : list column) : list interval :=
  omap (clamp_cut hall_width) row_cols.

(** [cuts.sort(key=lambda x: x[0])]: a stable sort on the start.  An
    interval is put behind all those whose start is not larger. *)
Fixpoint insert_by_start (iv : interval) (l : list interval) : list interval :=
  match l with
  | [] => [iv]
  | x :: l' => if Qlt_bool iv.1 x.1 then iv :: l else x :: insert_by_start iv l'
  end.

Definition sort_by_start (cuts : list interval) : list interval :=
  foldl (fun acc iv => insert_by_start iv acc) [] cuts.

(** The body of [for iv in cuts]: [merged[-1]] is the last interval. *)
Definition merge_step (merged : list interval) (iv : interval) : list interval :=
  match last merged with
  | None => merged ++ [iv]
  | Some prev =>
      if Qle_bool iv.1 prev.2
      then <[pred (length merged) := (prev.1, py_max prev.2 iv.2)]> merged
      else merged ++ [iv]
  end.

Definition merge_sorted (cuts : list interval) : list interval :=
  foldl merge_step [] cuts.

(** Sorting and merging, as the program does one after the other. *)
Definition merge_intervals (cuts : list interval) : list interval :=
  merge_sorted (sort_by_start cuts).

(** The body of [for (cstart, cend) in merged], on the pair
    [(leftover, start_x)]. *)
Definition leftover_step (st : list interval * Q) (c : interval) : list interval * Q :=
  let '(leftover, start_x) := st in
  let '(cstart, cend) := c in
  let leftover := if Qgt_bool cstart start_x then leftover ++ [(start_x, cstart)] else leftover in
  (leftover, cend).

Definition leftover_segments (hall_width : Q) (merged : list interval) : list interval :=
  let '(leftover, start_x) := foldl leftover_step ([], 0) merged in
  if Qlt_bool start_x hall_width then leftover ++ [(start_x, hall_width)] else leftover.

(** The lines of the console summary, with the numbers they show. *)
Inductive summary_line :=
| RowLine (i : Z) (ys ye row_h : Q) (is_custom : bool)
| NormalRowLine (hall_width row_h : Q)
| ColumnsLine (labels : list string)
| FullRowLine (hall_width row_h : Q) (merged : list interval)
| LeftoverLine (x0 x1 width : Q).

Definition row_summary (hall_width : Q) (e : row_entry) : list summary_line :=
  let '(i, ys, ye, is_custom, row_cols) := e in
  let row_h := ye - ys in
  RowLine i ys ye row_h is_custom ::
  if negb is_custom then [NormalRowLine hall_width row_h]
  else
    let cuts := cuts_of hall_width row_cols in
    let merged := merge_intervals cuts in
    let leftover := leftover_segments hall_width merged in
    ColumnsLine (map col_label row_cols) ::
    FullRowLine hall_width row_h merged ::
    map (fun seg => LeftoverLine seg.1 seg.2 (seg.2 - seg.1)) leftover.

(** What a call of [plot_prayer_hall] leaves behind. *)
Record plot := {
  plot_artists : list artist;
  plot_y_max : Q;
  plot_printed : list summary_line
}.

Definition plot_prayer_hall (rows : list row) (hall_width : Q)
    (columns : list column) (columns_to_ignore : gset string) : plot :=
  let rd := row_data rows columns columns_to_ignore in
  {| plot_artists := flat_map (draw_row hall_width) rd ++ flat_map draw_column columns;
     plot_y_max := from_option y_end 0 (last rows);
     plot_printed := flat_map (row_summary hall_width) rd |}.

(** ** Properties of a row list *)

(** [y] lies in the half-open band of the row. *)
Definition in_span (y : Q) (r : row) : Prop := y_start r <= y /\ y < y_end r.

(** The first row starts at 0 and each row starts where the one before ends. *)
Definition rows_contiguous (rows : list row) : Prop :=
  (forall r, rows !! 0%nat = Some r -> y_start r = 0) /\
  (forall j r1 r2, rows !! j = Some r1 -> rows !! S j = Some r2 -> y_start r2 = y_end r1).

(** The indices are 1, 2, 3, ... *)
Definition rows_indexed (rows : list row) : Prop :=
  forall j r, rows !! j = Some r -> row_index r = (1 + Z.of_nat j)%Z.

(** No point lies in the bands of two rows. *)
Definition rows_disjoint (rows : list row) : Prop :=
  forall j k r1 r2 y, j <> k -> rows !! j = Some r1 -> rows !! k = Some r2 ->
    ~ (in_span y r1 /\ in_span y r2).

(** The bands together are [0, total_length). *)
Definition rows_cover (total_length : Q) (rows : list row) : Prop :=
  forall y, (0 <= y /\ y < total_length) <-> (exists r, r ∈ rows /\ in_span y r).

(** A row starts no later than it ends. *)
Definition row_ordered (r : row) : Prop := y_start r <= y_end r.

(** The rows start at [s] with index [i] and follow one another. *)
Fixpoint rows_chain (s : Q) (i : Z) (rows : list row) : Prop :=
  match rows with
  | [] => True
  | r :: rest => row_index r = i /\ y_start r = s /\ rows_chain (y_end r) (i + 1) rest
  end.

(** Where the cursor stands after the rows. *)
Definition last_end (s : Q) (rows : list row) : Q := from_option y_end s (last rows).

(** The end of a row that starts at [cur_y] and asks for height [h]. *)
Definition clamped_end (total_length cur_y h : Q) : Q :=
  let y_end := cur_y + h in
  if Qgt_bool y_end total_length then total_length else y_end.

(** How a row came about: it starts inside the hall and either has the
    height asked for, or is cut at the end of the hall. *)
Definition row_built (total_length default_height : Q) (forced_heights : gmap Z Q)
    (r : row) : Prop :=
  y_start r < total_length /\
  y_end r = clamped_end total_length (y_start r)
              (resolved_height forced_heights default_height (row_index r)).

(** ** Properties of an interval list *)

Definition start_le (a b : interval) : Prop := a.1 <= b.1.

(** [a] ends before [b] starts. *)
Definition ends_before (a b : interval) : Prop := a.2 < b.1.

(** [x] lies in the closed span. *)
Definition in_interval (x : Q) (a : interval) : Prop := a.1 <= x /\ x <= a.2.

(** Starts in ascending order. *)
Definition sorted_by_start (l : list interval) : Prop := StronglySorted start_le l.

(** No point lies in two of the spans. *)
Definition intervals_disjoint (l : list interval) : Prop :=
  forall j k a b x, j <> k -> l !! j = Some a -> l !! k = Some b ->
    ~ (in_interval x a /\ in_interval x b).

(** The merging loop seen from the front: [prev] is the interval that is
    still open, the list is what is left of the sorted cuts. *)
Fixpoint merge_from (prev : interval) (cuts : list interval) : list interval :=
  match cuts with
  | [] => [prev]
  | iv :: cuts' =>
      if Qle_bool iv.1 prev.2 then merge_from (prev.1, py_max prev.2 iv.2) cuts'
      else prev :: merge_from iv cuts'
  end.

(** The leftover loop seen from the front, with its closing test. *)
Fixpoint gaps_from (start_x : Q) (merged : list interval) (hall_width : Q)
    : list interval :=
  match merged with
  | [] => if Qlt_bool start_x hall_width then [(start_x, hall_width)] else []
  | c :: merged' =>
      (if Qgt_bool c.1 start_x then [(start_x, c.1)] else [])
        ++ gaps_from c.2 merged' hall_width
  end.

(** Cuts and gaps in the order in which they lie in the row. *)
Fixpoint tiles_from (start_x : Q) (merged : list interval) (hall_width : Q)
    : list interval :=
  match merged with
  | [] => if Qlt_bool start_x hall_width then [(start_x, hall_width)] else []
  | c :: merged' =>
      (if Qgt_bool c.1 start_x then [(start_x, c.1)] else [])
        ++ c :: tiles_from c.2 merged' hall_width
  end.

(** Two spans share at most an end point. *)
Definition apart (a b : interval) : Prop := a.2 <= b.1 \/ b.2 <= a.1.

(** The pieces tile [0, hall_width]: each is a span of positive width
    inside, every point of [0, hall_width] lies in one, and no two of them
    share more than an end point. *)
Definition partitions (hall_width : Q) (pieces : list interval) : Prop :=
  Forall (fun p => 0 <= p.1 /\ p.1 < p.2 /\ p.2 <= hall_width) pieces /\
  (forall x, 0 <= x -> x <= hall_width -> exists p, p ∈ pieces /\ in_interval x p) /\
  (forall j k a b, j <> k -> pieces !! j = Some a -> pieces !! k = Some b -> apart a b).

(** What the walk asks of the merged cuts: they lie between [start_x] and
    the hall width, have a width, and each ends before the later ones
    start. *)
Definition cuts_within (start_x hall_width : Q) (merged : list interval) : Prop :=
  StronglySorted ends_before merged /\
  Forall (fun c => start_x <= c.1 /\ c.1 < c.2 /\ c.2 <= hall_width) merged.

(** ** Parsing the forced row heights *)

(** Why [parse_forced_rows] raised its [ValueError]. *)
Inductive forced_value_error :=
| InvalidForcedRowLine (line : string)  (* raise ValueError(f"Invalid forced row line: '{line}'") *)
| InvalidIntLiteral (s : string)        (* int(parts[0]) on a string that is no integer *)
| InvalidFloatLiteral (s : string)      (* float(parts[1]) on a string that is no number *).

(** [parse_forced_rows] returns the dict or raises. *)
Inductive forced_result (A : Type) :=
| Parsed (a : A)
| ForcedValueError (why : forced_value_error).
Arguments Parsed {A} a.
Arguments ForcedValueError {A} why.

Section ParsingForced.

(** [int(s)] and [float(s)] on a string: the number, or [None] where
    Python raises [ValueError]. *)
Variable py_int : string -> option Z.
Variable py_float : string -> option Q.

(** The body of the [for line in lines] loop of [parse_forced_rows], from
    [parts = ...] up to the two conversions. *)
Definition parse_forced_row_line (line : string) : forced_result (Z * Q) :=
  let parts := map strip (split ","%char line) in
  if (length parts <? 2)%nat then ForcedValueError (InvalidForcedRowLine line)
  else
    match parts with
    | p0 :: p1 :: _ =>
        match py_int p0 with
        | None => ForcedValueError (InvalidIntLiteral p0)
        | Some i =>
            match py_float p1 with
            | None => ForcedValueError (InvalidFloatLiteral p1)
            | Some h => Parsed (i, h)
            end
        end
    | _ => ForcedValueError (InvalidForcedRowLine line)
    end.

Fixpoint parse_forced_rows_loop (lines : list string) (out : gmap Z Q)
    : forced_result (gmap Z Q) :=
  match lines with
  | [] => Parsed out
  | line :: lines' =>
      let line := strip line in
      if is_empty_string line then parse_forced_rows_loop lines' out
      else
        match parse_forced_row_line line with
        | Parsed (i, h) => parse_forced_rows_loop lines' (<[i := h]> out)
        | ForcedValueError why => ForcedValueError why
        end
  end.

Definition parse_forced_rows (txt : string) : forced_result (gmap Z Q) :=
  let lines := splitlines (strip txt) in
  parse_forced_rows_loop lines ∅.

(** ** The plot button *)

(** What [on_plot] ends with: the plot, the error box with the exception
    that was caught, or no end at all. *)
Inductive on_plot_result :=
| Plotted (p : plot)
| ErrorShown (e : exn)
| ForcedErrorShown (why : forced_value_error)
| NeverReturns.

(** [on_plot], on the texts of the five entry fields. *)
Definition on_plot (fuel : nat)
    (length_var width_var def_h_var forced_str col_str : string) : on_plot_result :=
  match float_of py_float length_var with
  | Raise e => ErrorShown e
  | OutOfFuel => NeverReturns
  | Ok L =>
  match float_of py_float width_var with
  | Raise e => ErrorShown e
  | OutOfFuel => NeverReturns
  | Ok W =>
  match float_of py_float def_h_var with
  | Raise e => ErrorShown e
  | OutOfFuel => NeverReturns
  | Ok def_h =>
  match parse_forced_rows forced_str with
  | ForcedValueError why => ForcedErrorShown why
  | Parsed forced_heights =>
  match parse_columns py_float col_str with
  | Raise e => ErrorShown e
  | OutOfFuel => NeverReturns
  | Ok columns =>
  match build_rows fuel L def_h forced_heights with
  | Raise e => ErrorShown e
  | OutOfFuel => NeverReturns
  | Ok rows =>
      let columns_to_ignore : gset string := {["C1"%string]} in
      Plotted (plot_prayer_hall rows W columns columns_to_ignore)
  end end end end end end.

End ParsingForced.

(** Whether [on_plot] got as far as the plot. *)
Definition is_plotted (r : on_plot_result) : bool :=
  match r with Plotted _ => true | _ => false end.

(** ** Measures used in the statements *)

(** The sum of the widths of the spans. *)
Definition total_width (l : list interval) : Q :=
  foldr (fun p acc => (p.2 - p.1) + acc) 0 l.

(** How often the character occurs in the string. *)
Fixpoint count_char (c : ascii) (s : string) : nat :=
  match s with
  | EmptyString => O
  | String c' s' => (if Ascii.eqb c' c then 1 else 0) + count_char c s'
  end.

(** Every character of the string passes the test. *)
Fixpoint string_forall (p : ascii -> bool) (s : string) : bool :=
  match s with
  | EmptyString => true
  | String c s' => p c && string_forall p s'
  end.

(** The dict built from parsed (index, height) pairs, in their order. *)
Definition forced_of_pairs (out : gmap Z Q) (pairs : list (Z * Q)) : gmap Z Q :=
  foldl (fun acc p => <[p.1 := p.2]> acc) out pairs.

(** A stand-in for [int] and [float] in the examples: the value of a
    string of decimal digits, and nothing for any other string. *)
Fixpoint digits_value (acc : Z) (s : string) : option Z :=
  match s with
  | EmptyString => Some acc
  | String c s' =>
      let n := nat_of_ascii c in
      if ((48 <=? n)%nat && (n <=? 57)%nat)%bool
      then digits_value (10 * acc + Z.of_nat (n - 48))%Z s'
      else None
  end.

Definition int_of_digits (s : string) : option Z :=
  if is_empty_string s then None else digits_value 0 s.

Definition float_of_digits (s : string) : option Q :=
  inject_Z <$> int_of_digits s.

(** The lines that are not blank, stripped, as the parsing loops see them. *)
Definition nonblank_lines (lines : list string) : list string :=
  List.filter (fun l => negb (is_empty_string l)) (map strip lines).

(** ** Examples *)

Example build_rows_example1 :
  build_rows 10 5 2 ∅ = Ok [(1%Z, 0, 2); (2%Z, 2, 4); (3%Z, 4, 5)].
Proof. vm_compute. reflexivity. Qed.

Example strip_example : strip "  C2, 5.95 " = "C2, 5.95"%string.
Proof. reflexivity. Qed.

Example split_example :
  split ","%char "a,,b," = ["a"%string; EmptyString; "b"%string; EmptyString].
Proof. reflexivity. Qed.

(** "a\n\nb\r\nc\n".splitlines() == ['a', '', 'b', 'c'] *)
Example splitlines_example :
  splitlines (String "a" (String "010" (String "010" (String "b" (String "013"
               (String "010" (String "c" (String "010" EmptyString))))))))
  = ["a"%string; EmptyString; "b"%string; "c"%string].
Proof. reflexivity. Qed.

Example parse_columns_example :
  parse_columns (fun _ => Some 1) "C1, 1, 1, 1"
  = Ok [("C1"%string, 1, 1, circumference_to_radius 1)].
Proof. reflexivity. Qed.

Example merge_example4 : merge_intervals [(5, 8); (2, 6)] = [(2, 8)].
Proof. vm_compute. reflexivity. Qed.

Example segments_example3 :
  let merged := merge_intervals (cuts_of 10 [("C2"%string, 5, 1, 2)]) in
  merged = [(3, 7)] /\ leftover_segments 10 merged = [(0, 3); (7, 10)].
Proof. vm_compute. split; reflexivity. Qed.


(** ** Facts on the comparisons *)

Lemma Qge_bool_true a b : Qge_bool a b = true <-> b <= a.
Proof. unfold Qge_bool. apply Qle_bool_iff. Qed.

Lemma Qge_bool_false a b : Qge_bool a b = false <-> a < b.
Proof.
  unfold Qge_bool. rewrite <- not_true_iff_false, Qle_bool_iff. split.
  - apply Qnot_le_lt.
  - apply Qlt_not_le.
Qed.

Lemma Qgt_bool_true a b : Qgt_bool a b = true <-> b < a.
Proof.
  unfold Qgt_bool. rewrite negb_true_iff. apply (Qge_bool_false b a).
Qed.

Lemma Qgt_bool_false a b : Qgt_bool a b = false <-> a <= b.
Proof.
  unfold Qgt_bool. rewrite negb_false_iff. apply Qle_bool_iff.
Qed.

Lemma Qlt_bool_true a b : Qlt_bool a b = true <-> a < b.
Proof. apply (Qgt_bool_true b a). Qed.

Lemma Qlt_bool_false a b : Qlt_bool a b = false <-> b <= a.
Proof. apply (Qgt_bool_false b a). Qed.

Lemma Qle_bool_false a b : Qle_bool a b = false <-> b < a.
Proof. apply (Qge_bool_false b a). Qed.

Ltac Qbool :=
  repeat match goal with
  | H : Qge_bool _ _ = true |- _ => apply Qge_bool_true in H
  | H : Qge_bool _ _ = false |- _ => apply Qge_bool_false in H
  | H : Qgt_bool _ _ = true |- _ => apply Qgt_bool_true in H
  | H : Qgt_bool _ _ = false |- _ => apply Qgt_bool_false in H
  | H : Qlt_bool _ _ = true |- _ => apply Qlt_bool_true in H
  | H : Qlt_bool _ _ = false |- _ => apply Qlt_bool_false in H
  | H : Qle_bool _ _ = true |- _ => apply Qle_bool_iff in H
  | H : Qle_bool _ _ = false |- _ => apply Qle_bool_false in H
  end.

Lemma py_max_cases a b : (py_max a b = a /\ b <= a) \/ (py_max a b = b /\ a < b).
Proof.
  unfold py_max. destruct (Qgt_bool b a) eqn:E; Qbool; auto.
Qed.

(** ** The row builder *)

Section BuildRows.

Variables total_length default_height : Q.
Variable forced_heights : gmap Z Q.

Local Abbreviation loop fuel :=
  (build_rows_loop fuel total_length default_height forced_heights).
Local Abbreviation height := (resolved_height forced_heights default_height).

(** The rows found so far are only ever extended at the back. *)
Lemma build_rows_loop_acc fuel rows cur_y i :
  loop fuel rows cur_y i = (rows ++.) <$> loop fuel [] cur_y i.
Proof.
  revert rows cur_y i. induction fuel as [|fuel IH]; intros rows cur_y i.
  - reflexivity.
  - simpl. destruct (Qge_bool cur_y total_length).
    + simpl. by rewrite app_nil_r.
    + match goal with |- context [Qge_bool ?e total_length] =>
        destruct (Qge_bool e total_length) end.
      * reflexivity.
      * rewrite IH. rewrite (IH [_]).
        match goal with |- context [build_rows_loop ?f ?t ?d ?m [] ?c ?j] =>
          destruct (build_rows_loop f t d m [] c j) end; simpl; try reflexivity.
        by rewrite <- app_assoc.
Qed.

(** One turn of the loop, started without rows. *)
Lemma build_rows_loop_step fuel cur_y i :
  loop (S fuel) [] cur_y i =
    if Qge_bool cur_y total_length then Ok []
    else
      let e := clamped_end total_length cur_y (height i) in
      if Qge_bool e total_length then Ok [(i, cur_y, e)]
      else ((i, cur_y, e) ::.) <$> loop fuel [] e (i + 1)%Z.
Proof.
  cbn [build_rows_loop].
  destruct (Qge_bool cur_y total_length); [reflexivity|].
  simpl. fold (clamped_end total_length cur_y (resolved_height forced_heights default_height i)).
  destruct (Qge_bool _ total_length); [reflexivity|].
  apply build_rows_loop_acc.
Qed.

(** The loop has no [raise]. *)
Lemma build_rows_loop_no_raise fuel cur_y i e :
  loop fuel [] cur_y i <> Raise e.
Proof.
  revert cur_y i. induction fuel as [|fuel IH]; intros cur_y i.
  - discriminate.
  - rewrite build_rows_loop_step.
    destruct (Qge_bool cur_y total_length); [discriminate|]. simpl.
    destruct (Qge_bool _ total_length); [discriminate|].
    specialize (IH (clamped_end total_length cur_y (height i)) (i + 1)%Z).
    destruct (loop fuel [] _ _); simpl; congruence.
Qed.

(** More fuel does not change a result. *)
Lemma build_rows_loop_more_fuel fuel fuel' cur_y i rows :
  (fuel <= fuel')%nat ->
  loop fuel [] cur_y i = Ok rows -> loop fuel' [] cur_y i = Ok rows.
Proof.
  revert fuel' cur_y i rows. induction fuel as [|fuel IH]; intros fuel' cur_y i rows Hle.
  - discriminate.
  - destruct fuel' as [|fuel']; [lia|].
    rewrite !build_rows_loop_step.
    destruct (Qge_bool cur_y total_length); [done|]. simpl.
    destruct (Qge_bool _ total_length); [done|].
    destruct (loop fuel [] _ _) as [r| |] eqn:E; simpl; try discriminate.
    intros [= <-]. rewrite (IH fuel' _ _ r); [done|lia|done].
Qed.

Lemma last_end_cons s r rows : last_end s (r :: rows) = last_end (y_end r) rows.
Proof.
  unfold last_end. destruct rows as [|r' rows]; [reflexivity|].
  rewrite last_cons_cons.
  destruct (last (r' :: rows)) eqn:E; [reflexivity|].
  by apply last_None in E.
Qed.

(** What the loop returns: a chain of rows, each built by the rule,
    with the cursor at or behind the end of the hall. *)
Lemma build_rows_loop_spec fuel cur_y i rows :
  loop fuel [] cur_y i = Ok rows ->
  rows_chain cur_y i rows /\
  Forall (row_built total_length default_height forced_heights) rows /\
  total_length <= last_end cur_y rows.
Proof.
  revert cur_y i rows. induction fuel as [|fuel IH]; intros cur_y i rows.
  - discriminate.
  - rewrite build_rows_loop_step.
    destruct (Qge_bool cur_y total_length) eqn:E1.
    { intros [= <-]. Qbool. split_and!; [done|constructor|done]. }
    cbv zeta.
    destruct (Qge_bool (clamped_end _ _ _) total_length) eqn:E2.
    { intros [= <-]. Qbool. split_and!; try done.
      constructor; [|constructor]. split; [done|reflexivity]. }
    destruct (loop fuel [] _ _) as [r| |] eqn:E; try discriminate.
    intros [= <-]. destruct (IH _ _ _ E) as (Hc & Hb & Hl). Qbool.
    rewrite last_end_cons. split_and!; try done.
    constructor; [|done]. split; [done|reflexivity].
Qed.

End BuildRows.

(** ** Chains of rows *)

Lemma rows_chain_index s i rows j r :
  rows_chain s i rows -> rows !! j = Some r -> row_index r = (i + Z.of_nat j)%Z.
Proof.
  revert s i j. induction rows as [|r0 rows IH]; intros s i j Hc Hj; [done|].
  destruct Hc as (Hi & Hs & Hc). destruct j as [|j]; simpl in Hj.
  - injection Hj as <-. lia.
  - rewrite (IH _ _ _ Hc Hj). lia.
Qed.

Lemma rows_chain_next s i rows j r1 r2 :
  rows_chain s i rows -> rows !! j = Some r1 -> rows !! S j = Some r2 ->
  y_start r2 = y_end r1.
Proof.
  revert s i j. induction rows as [|r0 rows IH]; intros s i j Hc H1 H2; [done|].
  destruct Hc as (Hi & Hs & Hc). destruct j as [|j]; simpl in H1, H2.
  - injection H1 as <-. destruct rows as [|r3 rows]; [done|].
    injection H2 as <-. by destruct Hc as (_ & ? & _).
  - by apply (IH _ _ _ Hc H1 H2).
Qed.

Lemma rows_chain_ge s i rows r :
  rows_chain s i rows -> Forall row_ordered rows -> r ∈ rows -> s <= y_start r.
Proof.
  revert s i. induction rows as [|r0 rows IH]; intros s i Hc Ho Hr.
  - by apply elem_of_nil in Hr.
  - destruct Hc as (Hi & Hs & Hc). apply Forall_cons in Ho as [Ho0 Ho].
    apply elem_of_cons in Hr as [->|Hr].
    + rewrite Hs. lra.
    + specialize (IH _ _ Hc Ho Hr). unfold row_ordered in Ho0.
      rewrite <- Hs. lra.
Qed.

Lemma rows_chain_sorted s i rows j k r1 r2 :
  rows_chain s i rows -> Forall row_ordered rows -> (j < k)%nat ->
  rows !! j = Some r1 -> rows !! k = Some r2 -> y_end r1 <= y_start r2.
Proof.
  revert s i j k. induction rows as [|r0 rows IH]; intros s i j k Hc Ho Hjk H1 H2; [done|].
  destruct Hc as (Hi & Hs & Hc). apply Forall_cons in Ho as [Ho0 Ho].
  destruct k as [|k]; [lia|]. simpl in H2. destruct j as [|j]; simpl in H1.
  - injection H1 as <-. eapply rows_chain_ge; [done..|].
    by eapply list_elem_of_lookup_2.
  - eapply (IH _ _ j k); [done..|lia|done|done].
Qed.

Lemma last_end_ge s i rows :
  rows_chain s i rows -> Forall row_ordered rows -> s <= last_end s rows.
Proof.
  revert s i. induction rows as [|r0 rows IH]; intros s i Hc Ho.
  - unfold last_end. simpl. lra.
  - destruct Hc as (Hi & Hs & Hc). apply Forall_cons in Ho as [Ho0 Ho].
    rewrite last_end_cons. specialize (IH _ _ Hc Ho).
    unfold row_ordered in Ho0. rewrite <- Hs. lra.
Qed.

Lemma rows_chain_cover s i rows y :
  rows_chain s i rows -> Forall row_ordered rows ->
  (s <= y /\ y < last_end s rows) <-> (exists r, r ∈ rows /\ in_span y r).
Proof.
  revert s i. induction rows as [|r0 rows IH]; intros s i Hc Ho.
  - unfold last_end. simpl. split.
    + intros [? ?]. lra.
    + intros (r & Hr & _). by apply elem_of_nil in Hr.
  - destruct Hc as (Hi & Hs & Hc). apply Forall_cons in Ho as [Ho0 Ho].
    rewrite last_end_cons. specialize (IH _ _ Hc Ho).
    pose proof (last_end_ge _ _ _ Hc Ho) as Hge. unfold row_ordered in Ho0.
    rewrite <- Hs. split.
    + intros [H1 H2]. destruct (Qlt_le_dec y (y_end r0)) as [Hlt|Hle].
      * exists r0. split; [apply elem_of_cons; by left|]. split; [lra|done].
      * destruct (proj1 IH (conj Hle H2)) as (r & Hr & Hin).
        exists r. split; [apply elem_of_cons; by right|done].
    + intros (r & Hr & [Hin1 Hin2]). apply elem_of_cons in Hr as [->|Hr].
      * split; lra.
      * destruct (proj2 IH (ex_intro _ r (conj Hr (conj Hin1 Hin2)))). split; lra.
Qed.

Lemma clamped_end_le total_length cur_y h : clamped_end total_length cur_y h <= total_length.
Proof.
  unfold clamped_end. cbv zeta. destruct (Qgt_bool _ _) eqn:E; Qbool; lra.
Qed.

Lemma clamped_end_ge total_length cur_y h :
  cur_y < total_length -> 0 <= h -> cur_y <= clamped_end total_length cur_y h.
Proof.
  intros. unfold clamped_end. cbv zeta. destruct (Qgt_bool _ _) eqn:E; Qbool; lra.
Qed.

(** A height that is not positive is never clamped. *)
Lemma clamped_end_nonpos total_length cur_y h :
  cur_y < total_length -> h <= 0 -> clamped_end total_length cur_y h = cur_y + h.
Proof.
  intros. unfold clamped_end. cbv zeta. destruct (Qgt_bool _ _) eqn:E; Qbool; [lra|done].
Qed.

Lemma resolved_height_nonneg (forced_heights : gmap Z Q) default_height i :
  0 < default_height -> map_Forall (fun _ h => 0 <= h) forced_heights ->
  0 <= resolved_height forced_heights default_height i.
Proof.
  intros Hd Hf. unfold resolved_height.
  destruct (forced_heights !! i) as [h|] eqn:E; simpl; [by apply (Hf i)|lra].
Qed.

Lemma row_built_ordered total_length default_height (forced_heights : gmap Z Q) r :
  0 < default_height -> map_Forall (fun _ h => 0 <= h) forced_heights ->
  row_built total_length default_height forced_heights r -> row_ordered r.
Proof.
  intros Hd Hf [Hlt He]. unfold row_ordered. rewrite He.
  apply clamped_end_ge; [done|]. by apply resolved_height_nonneg.
Qed.

Lemma last_end_le total_length default_height (forced_heights : gmap Z Q) s rows :
  s <= total_length ->
  Forall (row_built total_length default_height forced_heights) rows ->
  last_end s rows <= total_length.
Proof.
  intros Hs Hb. unfold last_end. destruct (last rows) as [r|] eqn:E; simpl; [|done].
  apply last_Some_elem_of in E. rewrite Forall_forall in Hb.
  destruct (Hb r E) as [_ ->]. apply clamped_end_le.
Qed.

Lemma build_rows_loop_inner total_length default_height (forced_heights : gmap Z Q)
    fuel cur_y i rows :
  build_rows_loop fuel total_length default_height forced_heights [] cur_y i = Ok rows ->
  forall j r, rows !! j = Some r -> (S j < length rows)%nat -> y_end r < total_length.
Proof.
  revert cur_y i rows. induction fuel as [|fuel IH]; intros cur_y i rows; [discriminate|].
  rewrite build_rows_loop_step.
  destruct (Qge_bool cur_y total_length) eqn:E1; [by intros [= <-] j r ?|]. cbv zeta.
  destruct (Qge_bool (clamped_end _ _ _) total_length) eqn:E2.
  { intros [= <-] j r _ Hj. simpl in Hj. lia. }
  destruct (build_rows_loop fuel _ _ _ [] _ _) as [rest| |] eqn:E; try discriminate.
  intros [= <-] j r Hj Hlen. destruct j as [|j]; simpl in Hj, Hlen.
  - injection Hj as <-. by apply Qge_bool_false in E2.
  - apply (IH _ _ _ E j r Hj). lia.
Qed.

Lemma last_end_lookup s rows r :
  rows !! pred (length rows) = Some r -> last_end s rows = y_end r.
Proof. intros H. unfold last_end. by rewrite last_lookup, H. Qed.

Lemma build_rows_bands fuel total_length default_height (forced_heights : gmap Z Q) rows :
  0 < total_length -> 0 < default_height ->
  map_Forall (fun _ h => 0 <= h) forced_heights ->
  build_rows fuel total_length default_height forced_heights = Ok rows ->
  rows_disjoint rows /\ rows_cover total_length rows.
Proof.
  intros Ht Hd Hf Hok.
  destruct (build_rows_loop_spec _ _ _ _ _ _ _ Hok) as (Hc & Hb & Hl).
  assert (Ho : Forall row_ordered rows).
  { eapply Forall_impl; [exact Hb|]. intros r. by apply row_built_ordered. }
  split.
  - intros j k r1 r2 y Hjk H1 H2 [[Ha Hb1] [Hc1 Hd1]].
    destruct (Nat.lt_total j k) as [Hlt|[->|Hlt]]; [|done|].
    + pose proof (rows_chain_sorted _ _ _ _ _ _ _ Hc Ho Hlt H1 H2). lra.
    + pose proof (rows_chain_sorted _ _ _ _ _ _ _ Hc Ho Hlt H2 H1). lra.
  - intros y. rewrite <- (rows_chain_cover 0 1%Z rows y Hc Ho).
    assert (last_end 0 rows <= total_length).
    { eapply last_end_le; [|exact Hb]. lra. }
    split; intros [? ?]; split; lra.
Qed.

(** C2, as amended.  For every total length > 0, default height > 0 and
    forced heights none of which is negative: whenever [build_rows]
    returns a row list, the list does not depend on how many more turns
    the loop is allowed, is contiguous from 0, has the indices 1, 2, 3,
    ..., its rows start no later than they end, their half-open bands are
    pairwise disjoint, and the bands together are exactly
    [0, total_length).  (Nothing is said on whether the call returns:
    with doubles a cursor that a small height no longer moves, as in
    1e16 + 1.0 == 1e16, keeps the loop running.) *)
Theorem build_rows_partitions_length (total_length default_height : Q)
    (forced_heights : gmap Z Q) (fuel : nat) (rows : list row) :
  0 < total_length -> 0 < default_height ->
  map_Forall (fun _ h => 0 <= h) forced_heights ->
  build_rows fuel total_length default_height forced_heights = Ok rows ->
  (forall fuel', (fuel <= fuel')%nat ->
     build_rows fuel' total_length default_height forced_heights = Ok rows) /\
  rows_contiguous rows /\ rows_indexed rows /\
  Forall row_ordered rows /\ rows_disjoint rows /\
  rows_cover total_length rows.
Proof.
  intros Ht Hd Hf Hok.
  destruct (build_rows_loop_spec _ _ _ _ _ _ _ Hok) as (Hc & Hb & Hl).
  destruct (build_rows_bands _ _ _ _ _ Ht Hd Hf Hok) as [Hdis Hcov].
  split_and!; [| | | |done|done].
  - intros fuel' Hle. by apply (build_rows_loop_more_fuel _ _ _ fuel).
  - split.
    + destruct rows as [|r rows]; [done|]. intros r' [= <-]. by destruct Hc as (_ & ? & _).
    + intros j r1 r2. by apply (rows_chain_next 0 1%Z).
  - intros j r Hj. by apply (rows_chain_index 0 1%Z rows).
  - eapply Forall_impl; [exact Hb|]. intros r. by apply row_built_ordered.
Qed.

Lemma build_rows_partitions_length_witness :
  (forall fuel', (10 <= fuel')%nat ->
     build_rows fuel' 5 2 {[3%Z := 0]}
     = Ok [(1%Z, 0, 2); (2%Z, 2, 4); (3%Z, 4, 4); (4%Z, 4, 5)]) /\
  rows_contiguous [(1%Z, 0, 2); (2%Z, 2, 4); (3%Z, 4, 4); (4%Z, 4, 5)] /\
  rows_indexed [(1%Z, 0, 2); (2%Z, 2, 4); (3%Z, 4, 4); (4%Z, 4, 5)] /\
  Forall row_ordered [(1%Z, 0, 2); (2%Z, 2, 4); (3%Z, 4, 4); (4%Z, 4, 5)] /\
  rows_disjoint [(1%Z, 0, 2); (2%Z, 2, 4); (3%Z, 4, 4); (4%Z, 4, 5)] /\
  rows_cover 5 [(1%Z, 0, 2); (2%Z, 2, 4); (3%Z, 4, 4); (4%Z, 4, 5)].
Proof.
  apply (build_rows_partitions_length 5 2 {[3%Z := 0]} 10).
  - reflexivity.
  - reflexivity.
  - apply map_Forall_singleton. discriminate.
  - vm_compute. reflexivity.
Defined.

(** C2, as stated, fails: with a negative forced height the rows overlap.
    For total length 5, default height 2 and forced heights {2: -1} the
    rows are (1,0,2), (2,2,1), (3,1,3), (4,3,5), and y = 1 lies in the
    bands of row 1 and of row 3. *)
Lemma build_rows_overlap_counterexample :
  0 < 5 /\ 0 < 2 /\
  exists rows,
    (forall fuel, (4 <= fuel)%nat -> build_rows fuel 5 2 {[2%Z := -1]} = Ok rows) /\
    ~ rows_disjoint rows.
Proof.
  split; [lra|]. split; [lra|].
  exists [(1%Z, 0, 2); (2%Z, 2, 1); (3%Z, 1, 3); (4%Z, 3, 5)]. split.
  - intros fuel Hle. apply (build_rows_loop_more_fuel _ _ _ 4); [done|].
    vm_compute. reflexivity.
  - intros Hdis. apply (Hdis 0%nat 2%nat (1%Z, 0, 2) (3%Z, 1, 3) 1); [done..|].
    unfold in_span, y_start, y_end. simpl. lra.
Qed.

(** C1, as amended.  For every total length > 0 and every forced heights
    with an entry i whose height h is not positive, [build_rows] has no
    check of the height and raises no [ValueError] or other error of its
    own, however many turns the loop takes.  The turn for the index i,
    which is taken whenever the cursor is still below the total length,
    appends row i as it comes out, ending no later than it starts (an
    empty or a reversed row), and goes on to the next turn.  So whenever
    the call returns and the row list reaches the index i, row i is in
    the list, ends no later than it starts and before the total length,
    and is followed by further rows.  (The call need not return: with no
    height that moves the cursor up the loop runs on.) *)
Theorem build_rows_nonpositive_height_emitted (total_length default_height : Q)
    (forced_heights : gmap Z Q) (fuel : nat) (i : Z) (h : Q) :
  0 < total_length -> forced_heights !! i = Some h -> h <= 0 ->
  (forall why,
     build_rows fuel total_length default_height forced_heights <> Raise (ValueError why)) /\
  (forall turns rows cur_y, cur_y < total_length ->
     exists e, e <= cur_y /\
       build_rows_loop (S turns) total_length default_height forced_heights rows cur_y i
       = build_rows_loop turns total_length default_height forced_heights
           (rows ++ [(i, cur_y, e)]) e (i + 1)%Z) /\
  (forall rows,
     build_rows fuel total_length default_height forced_heights = Ok rows ->
     (1 <= i <= Z.of_nat (length rows))%Z ->
     exists s e,
       rows !! Z.to_nat (i - 1) = Some (i, s, e) /\
       e <= s /\ e < total_length /\ (i < Z.of_nat (length rows))%Z).
Proof.
  intros _ Hh Hneg. split_and!.
  - intros why. apply build_rows_loop_no_raise.
  - intros turns rows cur_y Hlt. exists (cur_y + h). split; [lra|].
    cbn [build_rows_loop]. unfold resolved_height. rewrite Hh. simpl default.
    assert (E1 : Qge_bool cur_y total_length = false) by (by apply Qge_bool_false).
    assert (E2 : Qgt_bool (cur_y + h) total_length = false) by (apply Qgt_bool_false; lra).
    assert (E3 : Qge_bool (cur_y + h) total_length = false) by (apply Qge_bool_false; lra).
    by rewrite E1, E2, E3.
  - intros rows Hok Hi.
    destruct (build_rows_loop_spec _ _ _ _ _ _ _ Hok) as (Hc & Hb & Hl).
    destruct (lookup_lt_is_Some_2 rows (Z.to_nat (i - 1))) as [[[i' s] e] Hr]; [lia|].
    pose proof (rows_chain_index _ _ _ _ _ Hc Hr) as Hidx. unfold row_index in Hidx.
    simpl in Hidx. assert (i' = i) as -> by lia.
    rewrite Forall_forall in Hb.
    destruct (Hb _ (list_elem_of_lookup_2 _ _ _ Hr)) as [Hlt He].
    unfold y_start, y_end, row_index, resolved_height in Hlt, He. simpl in Hlt, He.
    rewrite Hh in He. simpl in He. rewrite (clamped_end_nonpos _ _ _ Hlt Hneg) in He.
    assert (He' : e <= s /\ e < total_length) by (rewrite He; split; lra).
    exists s, e. split_and!; [done|apply He'|apply He'|].
    destruct (decide (S (Z.to_nat (i - 1)) = length rows)) as [Hlast|Hnot]; [|lia].
    exfalso. rewrite (last_end_lookup _ _ (i, s, e)) in Hl by (by rewrite <- Hlast).
    unfold y_end in Hl. simpl in Hl. lra.
Qed.

Lemma build_rows_nonpositive_height_emitted_witness :
  (forall why, build_rows 10 5 2 {[2%Z := -1]} <> Raise (ValueError why)) /\
  (forall turns rows cur_y, cur_y < 5 ->
     exists e, e <= cur_y /\
       build_rows_loop (S turns) 5 2 {[2%Z := -1]} rows cur_y 2
       = build_rows_loop turns 5 2 {[2%Z := -1]} (rows ++ [(2%Z, cur_y, e)]) e (2 + 1)%Z) /\
  (forall rows,
     build_rows 10 5 2 {[2%Z := -1]} = Ok rows ->
     (1 <= 2 <= Z.of_nat (length rows))%Z ->
     exists s e,
       rows !! Z.to_nat (2 - 1) = Some (2%Z, s, e) /\
       e <= s /\ e < 5 /\ (2 < Z.of_nat (length rows))%Z).
Proof.
  apply (build_rows_nonpositive_height_emitted 5 2 {[2%Z := -1]} 10 2 (-1)).
  - reflexivity.
  - reflexivity.
  - discriminate.
Defined.

(** C1, as stated, fails: for total length 5, default height 2 and forced
    heights {2: -1} the call returns the rows (1,0,2), (2,2,1), (3,1,3),
    (4,3,5) and raises nothing. *)
Lemma build_rows_no_error_counterexample :
  0 < 5 /\ ({[2%Z := -1]} : gmap Z Q) !! 2%Z = Some (-1) /\ -1 <= 0 /\
  forall fuel, (4 <= fuel)%nat ->
    build_rows fuel 5 2 {[2%Z := -1]}
      = Ok [(1%Z, 0, 2); (2%Z, 2, 1); (3%Z, 1, 3); (4%Z, 3, 5)] /\
    forall e, build_rows fuel 5 2 {[2%Z := -1]} <> Raise e.
Proof.
  split; [reflexivity|]. split; [reflexivity|]. split; [discriminate|].
  intros fuel Hle.
  assert (E : build_rows fuel 5 2 {[2%Z := -1]}
      = Ok [(1%Z, 0, 2); (2%Z, 2, 1); (3%Z, 1, 3); (4%Z, 3, 5)]).
  { apply (build_rows_loop_more_fuel _ _ _ 4); [done|]. vm_compute. reflexivity. }
  split; [exact E|]. intros e. rewrite E. discriminate.
Qed.

(** With a default height that is not positive and no positive forced
    height the loop has no end: every fuel runs out. *)
Lemma build_rows_loop_diverges total_length default_height (forced_heights : gmap Z Q) :
  default_height <= 0 -> map_Forall (fun _ h => h <= 0) forced_heights ->
  forall fuel rows cur_y i, cur_y < total_length -> cur_y <= 0 ->
    build_rows_loop fuel total_length default_height forced_heights rows cur_y i = OutOfFuel.
Proof.
  intros Hd Hf. induction fuel as [|fuel IH]; intros rows cur_y i Hlt Hc; [done|].
  assert (Hh : resolved_height forced_heights default_height i <= 0).
  { unfold resolved_height. destruct (forced_heights !! i) as [h|] eqn:E; simpl;
      [by apply (Hf i)|done]. }
  cbn [build_rows_loop]. apply Qge_bool_false in Hlt as E1. rewrite E1. cbv zeta.
  assert (E2 : Qgt_bool (cur_y + resolved_height forced_heights default_height i)
                 total_length = false) by (apply Qgt_bool_false; lra).
  rewrite E2.
  assert (E3 : Qge_bool (cur_y + resolved_height forced_heights default_height i)
                 total_length = false) by (apply Qge_bool_false; lra).
  rewrite E3. apply IH; lra.
Qed.

(** C9.  For every total length <= 0, whatever the default height and the
    forced heights, [build_rows] returns the empty list and raises
    nothing: the first test of the loop leaves it. *)
Theorem build_rows_empty_hall (total_length default_height : Q)
    (forced_heights : gmap Z Q) (fuel : nat) :
  total_length <= 0 ->
  build_rows (S fuel) total_length default_height forced_heights = Ok [].
Proof.
  intros Ht. unfold build_rows. cbn [build_rows_loop].
  assert (E : Qge_bool 0 total_length = true) by (by apply Qge_bool_true).
  by rewrite E.
Qed.

Lemma build_rows_empty_hall_witness :
  build_rows 1 (-3) 2 {[1%Z := 4]} = Ok [] /\ build_rows 1 0 (-1) ∅ = Ok [].
Proof.
  split.
  - apply (build_rows_empty_hall (-3) 2 {[1%Z := 4]} 0). discriminate.
  - apply (build_rows_empty_hall 0 (-1) ∅ 0). discriminate.
Defined.

(** ** Sorting the cuts *)

Lemma insert_by_start_Forall (P : interval -> Prop) iv l :
  P iv -> Forall P l -> Forall P (insert_by_start iv l).
Proof.
  intros Hiv. induction 1 as [|x l Hx Hl IH]; simpl.
  - by constructor.
  - destruct (Qlt_bool iv.1 x.1); repeat constructor; done.
Qed.

Lemma insert_by_start_sorted iv l :
  sorted_by_start l -> sorted_by_start (insert_by_start iv l).
Proof.
  unfold sorted_by_start. induction 1 as [|x l Hs IH Hx]; simpl.
  - repeat constructor.
  - destruct (Qlt_bool iv.1 x.1) eqn:E; Qbool.
    + constructor; [by constructor|]. constructor; [unfold start_le; lra|].
      eapply Forall_impl; [exact Hx|]. unfold start_le. intros y ?. lra.
    + constructor; [done|]. by apply insert_by_start_Forall.
Qed.

Lemma sort_by_start_acc_Forall (P : interval -> Prop) acc l :
  Forall P acc -> Forall P l ->
  Forall P (foldl (fun acc iv => insert_by_start iv acc) acc l).
Proof.
  intros Ha Hl. revert acc Ha. induction Hl as [|x l Hx Hl IH]; intros acc Ha; simpl.
  - done.
  - apply IH. by apply insert_by_start_Forall.
Qed.

Lemma sort_by_start_Forall (P : interval -> Prop) l :
  Forall P l -> Forall P (sort_by_start l).
Proof. by apply sort_by_start_acc_Forall. Qed.

Lemma sort_by_start_sorted l : sorted_by_start (sort_by_start l).
Proof.
  unfold sort_by_start. assert (H : sorted_by_start []) by constructor.
  revert H. generalize (@nil interval). induction l as [|x l IH]; intros acc Ha; simpl.
  - done.
  - apply IH. by apply insert_by_start_sorted.
Qed.

(** An interval whose start is not below any start in the list goes to
    the back. *)
Lemma insert_by_start_back iv l :
  Forall (fun x => start_le x iv) l -> insert_by_start iv l = l ++ [iv].
Proof.
  induction 1 as [|x l Hx Hl IH]; simpl; [done|].
  assert (E : Qlt_bool iv.1 x.1 = false) by (by apply Qlt_bool_false).
  by rewrite E, IH.
Qed.

(** The sort is stable: it leaves a list alone that is sorted already. *)
Lemma sort_by_start_acc_id acc l :
  sorted_by_start (acc ++ l) ->
  foldl (fun acc iv => insert_by_start iv acc) acc l = acc ++ l.
Proof.
  revert acc. induction l as [|x l IH]; intros acc Hs; simpl.
  - by rewrite app_nil_r.
  - rewrite insert_by_start_back.
    + rewrite IH; rewrite <- app_assoc; done.
    + apply Forall_forall. intros y Hy.
      eapply (StronglySorted_app_1_elem_of _ acc (x :: l)); [done..|].
      apply elem_of_cons. by left.
Qed.

Lemma sort_by_start_id l : sorted_by_start l -> sort_by_start l = l.
Proof. intros Hs. by apply (sort_by_start_acc_id []). Qed.

(** ** Merging the sorted cuts *)

Lemma merge_step_snoc pre prev iv :
  merge_step (pre ++ [prev]) iv =
    if Qle_bool iv.1 prev.2 then pre ++ [(prev.1, py_max prev.2 iv.2)]
    else pre ++ [prev; iv].
Proof.
  unfold merge_step. rewrite last_snoc, length_app. simpl.
  replace (pred (length pre + 1)) with (length pre + 0)%nat by lia.
  rewrite insert_app_r. simpl. rewrite <- app_assoc. reflexivity.
Qed.

Lemma merge_fold pre prev l :
  foldl merge_step (pre ++ [prev]) l = pre ++ merge_from prev l.
Proof.
  revert pre prev. induction l as [|iv l IH]; intros pre prev; simpl; [done|].
  rewrite merge_step_snoc. destruct (Qle_bool iv.1 prev.2).
  - apply IH.
  - change (pre ++ [prev; iv]) with (pre ++ [prev] ++ [iv]).
    rewrite app_assoc, IH, <- app_assoc. reflexivity.
Qed.

Lemma merge_sorted_cons iv l : merge_sorted (iv :: l) = merge_from iv l.
Proof. apply (merge_fold [] iv l). Qed.

Lemma StronglySorted_lookup {A} (R : relation A) l j k a b :
  StronglySorted R l -> (j < k)%nat -> l !! j = Some a -> l !! k = Some b -> R a b.
Proof.
  intros Hs. revert j k. induction Hs as [|x l Hs IH Hx]; intros j k Hjk Hj Hk; [done|].
  destruct k as [|k]; [lia|]. simpl in Hk. destruct j as [|j]; simpl in Hj.
  - injection Hj as <-. rewrite Forall_forall in Hx. apply Hx.
    by eapply list_elem_of_lookup_2.
  - apply (IH j k); [lia|done|done].
Qed.

Lemma sorted_same_start (prev prev' : interval) l :
  prev'.1 = prev.1 -> sorted_by_start (prev :: l) -> sorted_by_start (prev' :: l).
Proof.
  intros E Hs. apply StronglySorted_inv in Hs as [Hs Hx].
  constructor; [done|]. eapply Forall_impl; [exact Hx|].
  unfold start_le. intros y. by rewrite E.
Qed.

(** No merged interval starts before the one that was open. *)
Lemma merge_from_starts prev l :
  sorted_by_start (prev :: l) -> Forall (start_le prev) (merge_from prev l).
Proof.
  revert prev. induction l as [|iv l IH]; intros prev Hs; simpl.
  - repeat constructor. unfold start_le. lra.
  - destruct (Qle_bool iv.1 prev.2).
    + apply (IH (prev.1, py_max prev.2 iv.2)).
      apply (sorted_same_start prev); [done|].
      apply StronglySorted_inv in Hs as [Hs Hx]. apply StronglySorted_inv in Hs as [Hs _].
      apply Forall_cons in Hx as [_ Hx]. by constructor.
    + apply StronglySorted_inv in Hs as [Hs Hx]. apply Forall_cons in Hx as [Hiv Hx].
      constructor; [unfold start_le; lra|].
      eapply Forall_impl; [exact (IH iv Hs)|]. unfold start_le in *. intros y ?. lra.
Qed.

Lemma merge_from_sorted prev l :
  sorted_by_start (prev :: l) -> sorted_by_start (merge_from prev l).
Proof.
  revert prev. induction l as [|iv l IH]; intros prev Hs; simpl.
  - repeat constructor.
  - destruct (Qle_bool iv.1 prev.2).
    + apply (IH (prev.1, py_max prev.2 iv.2)).
      apply (sorted_same_start prev); [done|].
      apply StronglySorted_inv in Hs as [Hs Hx]. apply StronglySorted_inv in Hs as [Hs _].
      apply Forall_cons in Hx as [_ Hx]. by constructor.
    + apply StronglySorted_inv in Hs as [Hs Hx]. apply Forall_cons in Hx as [Hiv Hx].
      constructor; [by apply IH|].
      eapply Forall_impl; [exact (merge_from_starts iv l Hs)|].
      unfold start_le in *. intros y ?. lra.
Qed.

(** Each merged interval ends before all later ones start. *)
Lemma merge_from_gapped prev l :
  sorted_by_start (prev :: l) -> StronglySorted ends_before (merge_from prev l).
Proof.
  revert prev. induction l as [|iv l IH]; intros prev Hs; simpl.
  - repeat constructor.
  - destruct (Qle_bool iv.1 prev.2) eqn:E.
    + apply (IH (prev.1, py_max prev.2 iv.2)).
      apply (sorted_same_start prev); [done|].
      apply StronglySorted_inv in Hs as [Hs Hx]. apply StronglySorted_inv in Hs as [Hs _].
      apply Forall_cons in Hx as [_ Hx]. by constructor.
    + apply StronglySorted_inv in Hs as [Hs Hx]. Qbool.
      constructor; [by apply IH|].
      eapply Forall_impl; [exact (merge_from_starts iv l Hs)|].
      unfold start_le, ends_before. intros y ?. lra.
Qed.

Lemma merge_from_Forall (P : interval -> Prop) prev l :
  (forall a b, P a -> P b -> P (a.1, py_max a.2 b.2)) ->
  P prev -> Forall P l -> Forall P (merge_from prev l).
Proof.
  intros Hmax Hp Hl. revert prev Hp. induction Hl as [|iv l Hiv Hl IH]; intros prev Hp; simpl.
  - by repeat constructor.
  - destruct (Qle_bool iv.1 prev.2).
    + apply IH. by apply Hmax.
    + constructor; [done|]. by apply IH.
Qed.

(** Nothing is merged where each interval ends before the next starts. *)
Lemma merge_from_id prev l :
  StronglySorted ends_before (prev :: l) -> merge_from prev l = prev :: l.
Proof.
  revert prev. induction l as [|iv l IH]; intros prev Hs; simpl; [done|].
  apply StronglySorted_inv in Hs as [Hs Hx]. apply Forall_cons in Hx as [Hiv _].
  assert (E : Qle_bool iv.1 prev.2 = false) by (by apply Qle_bool_false).
  rewrite E. f_equal. by apply IH.
Qed.

Lemma merge_intervals_sorted cuts : sorted_by_start (merge_intervals cuts).
Proof.
  unfold merge_intervals. pose proof (sort_by_start_sorted cuts) as Hs.
  destruct (sort_by_start cuts) as [|iv l]; [constructor|].
  rewrite merge_sorted_cons. by apply merge_from_sorted.
Qed.

Lemma merge_intervals_gapped cuts : StronglySorted ends_before (merge_intervals cuts).
Proof.
  unfold merge_intervals. pose proof (sort_by_start_sorted cuts) as Hs.
  destruct (sort_by_start cuts) as [|iv l]; [constructor|].
  rewrite merge_sorted_cons. by apply merge_from_gapped.
Qed.

Lemma merge_intervals_Forall (P : interval -> Prop) cuts :
  (forall a b, P a -> P b -> P (a.1, py_max a.2 b.2)) ->
  Forall P cuts -> Forall P (merge_intervals cuts).
Proof.
  intros Hmax Hc. unfold merge_intervals.
  pose proof (sort_by_start_Forall P cuts Hc) as Hs.
  destruct (sort_by_start cuts) as [|iv l]; [constructor|].
  rewrite merge_sorted_cons. apply Forall_cons in Hs as [? ?].
  by apply merge_from_Forall.
Qed.

Lemma gapped_disjoint l : StronglySorted ends_before l -> intervals_disjoint l.
Proof.
  intros Hs j k a b x Hjk Hj Hk [[Ha1 Ha2] [Hb1 Hb2]].
  destruct (Nat.lt_total j k) as [Hlt|[->|Hlt]]; [|done|].
  - pose proof (StronglySorted_lookup _ _ _ _ _ _ Hs Hlt Hj Hk) as H.
    unfold ends_before in H. lra.
  - pose proof (StronglySorted_lookup _ _ _ _ _ _ Hs Hlt Hk Hj) as H.
    unfold ends_before in H. lra.
Qed.

(** C6.  For every list of (start, end) pairs with end >= start, the
    merge (stable sort by start, then the walk that merges an interval
    into the open one when its start is <= the open end) returns a list
    that is sorted by start, in which every interval ends before all later
    ones start, whose intervals again have end >= start, and in which no
    point lies in two intervals. *)
Theorem merge_intervals_sorted_disjoint (cuts : list interval) :
  Forall (fun iv => iv.1 <= iv.2) cuts ->
  sorted_by_start (merge_intervals cuts) /\
  StronglySorted ends_before (merge_intervals cuts) /\
  Forall (fun iv => iv.1 <= iv.2) (merge_intervals cuts) /\
  intervals_disjoint (merge_intervals cuts).
Proof.
  intros Hc. split_and!.
  - apply merge_intervals_sorted.
  - apply merge_intervals_gapped.
  - apply merge_intervals_Forall; [|done]. intros a b Ha Hb. simpl.
    destruct (py_max_cases a.2 b.2) as [[-> ?]|[-> ?]]; lra.
  - apply gapped_disjoint, merge_intervals_gapped.
Qed.

Lemma merge_intervals_sorted_disjoint_witness :
  sorted_by_start (merge_intervals [(5, 8); (9, 9); (2, 6); (8, 8)]) /\
  StronglySorted ends_before (merge_intervals [(5, 8); (9, 9); (2, 6); (8, 8)]) /\
  Forall (fun iv => iv.1 <= iv.2) (merge_intervals [(5, 8); (9, 9); (2, 6); (8, 8)]) /\
  intervals_disjoint (merge_intervals [(5, 8); (9, 9); (2, 6); (8, 8)]).
Proof.
  apply (merge_intervals_sorted_disjoint [(5, 8); (9, 9); (2, 6); (8, 8)]).
  repeat constructor; discriminate.
Defined.

(** C7.  The merge is idempotent: for every list of intervals, merging
    the merged list gives the merged list again. *)
Theorem merge_intervals_idempotent (cuts : list interval) :
  merge_intervals (merge_intervals cuts) = merge_intervals cuts.
Proof.
  pose proof (merge_intervals_sorted cuts) as Hs.
  pose proof (merge_intervals_gapped cuts) as Hg.
  unfold merge_intervals at 1. rewrite (sort_by_start_id _ Hs).
  destruct (merge_intervals cuts) as [|iv l]; [reflexivity|].
  rewrite merge_sorted_cons. by apply merge_from_id.
Qed.

(** ** The leftover segments *)

Lemma leftover_fold hall_width leftover start_x merged :
  (let '(leftover, start_x) := foldl leftover_step (leftover, start_x) merged in
   if Qlt_bool start_x hall_width then leftover ++ [(start_x, hall_width)] else leftover)
  = leftover ++ gaps_from start_x merged hall_width.
Proof.
  revert leftover start_x. induction merged as [|[cstart cend] merged IH];
    intros leftover start_x; simpl.
  - destruct (Qlt_bool start_x hall_width); [done|by rewrite app_nil_r].
  - rewrite IH. destruct (Qgt_bool cstart start_x); [|done].
    by rewrite <- app_assoc.
Qed.

Lemma leftover_segments_gaps hall_width merged :
  leftover_segments hall_width merged = gaps_from 0 merged hall_width.
Proof. apply (leftover_fold hall_width [] 0 merged). Qed.

Lemma tiles_from_perm start_x merged hall_width :
  merged ++ gaps_from start_x merged hall_width ≡ₚ tiles_from start_x merged hall_width.
Proof.
  revert start_x. induction merged as [|c merged IH]; intros start_x; simpl; [done|].
  rewrite <- (IH c.2). destruct (Qgt_bool c.1 start_x); simpl; [|done].
  rewrite <- Permutation_middle. apply Permutation_swap.
Qed.

Lemma cuts_within_tail start_x hall_width c merged :
  cuts_within start_x hall_width (c :: merged) ->
  (start_x <= c.1 /\ c.1 < c.2 /\ c.2 <= hall_width) /\
  cuts_within c.2 hall_width merged.
Proof.
  intros [Hs Hf]. apply StronglySorted_inv in Hs as [Hs Hx].
  apply Forall_cons in Hf as [Hc Hf]. split; [done|]. split; [done|].
  rewrite Forall_forall in Hx, Hf. apply Forall_forall. intros d Hd.
  specialize (Hx d Hd). specialize (Hf d Hd). unfold ends_before in Hx. lra.
Qed.

Lemma tiles_from_bounds start_x merged hall_width :
  cuts_within start_x hall_width merged ->
  Forall (fun p => start_x <= p.1 /\ p.1 < p.2 /\ p.2 <= hall_width)
    (tiles_from start_x merged hall_width).
Proof.
  revert start_x. induction merged as [|c merged IH]; intros start_x Hw; simpl.
  - destruct (Qlt_bool start_x hall_width) eqn:E; Qbool; repeat constructor; simpl; lra.
  - apply cuts_within_tail in Hw as [Hc Hw]. specialize (IH _ Hw).
    assert (Forall (fun p => start_x <= p.1 /\ p.1 < p.2 /\ p.2 <= hall_width)
              (c :: tiles_from c.2 merged hall_width)).
    { constructor; [done|]. eapply Forall_impl; [exact IH|]. simpl. intros p ?. lra. }
    destruct (Qgt_bool c.1 start_x) eqn:E; Qbool; simpl; [|done].
    constructor; [simpl; lra|done].
Qed.

Lemma tiles_from_ordered start_x merged hall_width :
  cuts_within start_x hall_width merged ->
  StronglySorted (fun p q => p.2 <= q.1) (tiles_from start_x merged hall_width).
Proof.
  revert start_x. induction merged as [|c merged IH]; intros start_x Hw; simpl.
  - destruct (Qlt_bool start_x hall_width); repeat constructor.
  - apply cuts_within_tail in Hw as [Hc Hw].
    pose proof (tiles_from_bounds _ _ _ Hw) as Hb. specialize (IH _ Hw).
    assert (Hs : StronglySorted (fun p q => p.2 <= q.1)
                   (c :: tiles_from c.2 merged hall_width)).
    { constructor; [done|]. eapply Forall_impl; [exact Hb|]. simpl. intros p ?. lra. }
    destruct (Qgt_bool c.1 start_x) eqn:E; Qbool; simpl; [|done].
    constructor; [done|]. constructor; [simpl; lra|].
    eapply Forall_impl; [exact Hb|]. simpl. intros p ?. lra.
Qed.

(** Every point from [start_x] up to, but not at, the hall width lies in
    a tile, counting a tile's left end to it. *)
Lemma tiles_from_cover_left start_x merged hall_width x :
  cuts_within start_x hall_width merged -> start_x <= x -> x < hall_width ->
  exists p, p ∈ tiles_from start_x merged hall_width /\ p.1 <= x /\ x < p.2.
Proof.
  revert start_x. induction merged as [|c merged IH]; intros start_x Hw H1 H2; simpl.
  - assert (E : Qlt_bool start_x hall_width = true) by (apply Qlt_bool_true; lra).
    rewrite E. exists (start_x, hall_width). split; [by apply list_elem_of_singleton|].
    simpl. lra.
  - apply cuts_within_tail in Hw as [Hc Hw].
    destruct (Qlt_le_dec x c.1) as [Hlt|Hle].
    { assert (E : Qgt_bool c.1 start_x = true) by (apply Qgt_bool_true; lra).
      rewrite E. exists (start_x, c.1). split; [apply elem_of_cons; by left|]. simpl. lra. }
    destruct (Qlt_le_dec x c.2) as [Hlt2|Hle2].
    { exists c. split; [|lra]. apply elem_of_app. right. apply elem_of_cons. by left. }
    destruct (IH _ Hw Hle2 H2) as (p & Hp & Hin).
    exists p. split; [|done]. apply elem_of_app. right. apply elem_of_cons. by right.
Qed.

(** The same, counting a tile's right end to it. *)
Lemma tiles_from_cover_right start_x merged hall_width x :
  cuts_within start_x hall_width merged -> start_x < x -> x <= hall_width ->
  exists p, p ∈ tiles_from start_x merged hall_width /\ p.1 < x /\ x <= p.2.
Proof.
  revert start_x. induction merged as [|c merged IH]; intros start_x Hw H1 H2; simpl.
  - assert (E : Qlt_bool start_x hall_width = true) by (apply Qlt_bool_true; lra).
    rewrite E. exists (start_x, hall_width). split; [by apply list_elem_of_singleton|].
    simpl. lra.
  - apply cuts_within_tail in Hw as [Hc Hw].
    destruct (Qlt_le_dec c.1 x) as [Hlt|Hle].
    2:{ assert (E : Qgt_bool c.1 start_x = true) by (apply Qgt_bool_true; lra).
        rewrite E. exists (start_x, c.1). split; [apply elem_of_cons; by left|]. simpl. lra. }
    destruct (Qlt_le_dec c.2 x) as [Hlt2|Hle2].
    2:{ exists c. split; [|lra]. apply elem_of_app. right. apply elem_of_cons. by left. }
    destruct (IH _ Hw Hlt2 H2) as (p & Hp & Hin).
    exists p. split; [|done]. apply elem_of_app. right. apply elem_of_cons. by right.
Qed.

(** The merged cuts and the gaps between them tile the row. *)
Lemma cuts_and_gaps_partition hall_width merged :
  0 < hall_width -> cuts_within 0 hall_width merged ->
  partitions hall_width (merged ++ leftover_segments hall_width merged).
Proof.
  intros HW Hw. rewrite leftover_segments_gaps.
  pose proof (tiles_from_perm 0 merged hall_width) as Hperm.
  split_and!.
  - rewrite Hperm. by apply tiles_from_bounds.
  - intros x H0 H1. destruct (Qlt_le_dec x hall_width) as [Hlt|Hle].
    + destruct (tiles_from_cover_left 0 merged hall_width x Hw H0 Hlt) as (p & Hp & ?).
      exists p. rewrite Hperm. split; [done|]. unfold in_interval. lra.
    + destruct (tiles_from_cover_right 0 merged hall_width x Hw) as (p & Hp & ?);
        [lra|done|].
      exists p. rewrite Hperm. split; [done|]. unfold in_interval. lra.
  - apply Permutation_inj in Hperm as (_ & f & Hinj & Hf).
    intros j k a b Hjk Hj Hk. rewrite Hf in Hj, Hk.
    pose proof (tiles_from_ordered 0 merged hall_width Hw) as Hs.
    assert (Hne : f j <> f k) by (intros E; by apply Hinj in E).
    unfold apart.
    destruct (Nat.lt_total (f j) (f k)) as [Hlt|[E|Hlt]]; [|done|].
    + left. exact (StronglySorted_lookup _ _ _ _ _ _ Hs Hlt Hj Hk).
    + right. exact (StronglySorted_lookup _ _ _ _ _ _ Hs Hlt Hk Hj).
Qed.

(** ** Marking the rows *)

Lemma row_data_elem e rows columns (columns_to_ignore : gset string) :
  (e ∈ row_data rows columns columns_to_ignore) <->
  exists r, r ∈ rows /\ e = mark_row (custom_cols columns columns_to_ignore) r.
Proof.
  unfold row_data. rewrite list_elem_of_In, in_map_iff. split.
  - intros (r & <- & Hr). exists r. by rewrite list_elem_of_In.
  - intros (r & Hr & ->). exists r. by rewrite <- list_elem_of_In.
Qed.

Lemma custom_cols_elem c columns (columns_to_ignore : gset string) :
  (c ∈ custom_cols columns columns_to_ignore) <->
  c ∈ columns /\ col_label c ∉ columns_to_ignore.
Proof.
  unfold custom_cols. rewrite !list_elem_of_In, filter_In, negb_true_iff,
    bool_decide_eq_false. reflexivity.
Qed.

Lemma in_band_true cy ystart yend :
  in_band cy ystart yend = true <-> ystart <= cy /\ cy < yend.
Proof.
  unfold in_band. by rewrite andb_true_iff, Qge_bool_true, Qlt_bool_true.
Qed.

Lemma py_bool_true {A} (l : list A) : py_bool l = true <-> exists x, x ∈ l.
Proof.
  destruct l as [|x l]; simpl; split; try done.
  - intros [x Hx]. by apply elem_of_nil in Hx.
  - intros _. exists x. apply elem_of_cons. by left.
Qed.

(** An entry of [row_data] is a row with its columns: those that are not
    ignored and have their centre in the band. *)
Lemma row_data_entry i ys ye b rc rows columns (columns_to_ignore : gset string) :
  (i, ys, ye, b, rc) ∈ row_data rows columns columns_to_ignore ->
  (i, ys, ye) ∈ rows /\ b = py_bool rc /\
  rc = List.filter (fun c => in_band (col_cy c) ys ye) (custom_cols columns columns_to_ignore).
Proof.
  rewrite row_data_elem. intros ([[i' ys'] ye'] & Hr & E). simpl in E.
  injection E as -> -> -> -> ->. done.
Qed.

Lemma row_cols_elem c ys ye columns (columns_to_ignore : gset string) :
  (c ∈ List.filter (fun c => in_band (col_cy c) ys ye)
         (custom_cols columns columns_to_ignore)) <->
  c ∈ columns /\ (col_label c ∉ columns_to_ignore) /\ ys <= col_cy c /\ col_cy c < ye.
Proof.
  rewrite list_elem_of_In, filter_In, <- list_elem_of_In, custom_cols_elem, in_band_true.
  tauto.
Qed.

Lemma filter_map_commute {A} (p : A -> bool) (f : A -> A) l :
  (forall x, p (f x) = p x) -> List.filter p (map f l) = map f (List.filter p l).
Proof.
  intros Hp. induction l as [|x l IH]; simpl; [done|].
  rewrite Hp. destruct (p x); simpl; by rewrite IH.
Qed.

Lemma py_bool_map {A B} (f : A -> B) l : py_bool (map f l) = py_bool l.
Proof. by destruct l. Qed.

(** C5.  A row is marked as intersected exactly when some column whose
    label is not in the ignored set has its centre y in the half-open
    band [start, end) of the row; and giving the columns other radii
    changes neither the mark nor which columns are assigned to the row. *)
Theorem row_intersected_iff (rows : list row) (columns : list column)
    (columns_to_ignore : gset string) i ys ye b rc :
  (i, ys, ye, b, rc) ∈ row_data rows columns columns_to_ignore ->
  (b = true <->
     exists c, c ∈ columns /\ (col_label c ∉ columns_to_ignore) /\
               ys <= col_cy c /\ col_cy c < ye) /\
  (forall radius : column -> Q,
     let resize := fun c : column => (col_label c, col_cx c, col_cy c, radius c) in
     (i, ys, ye, b, map resize rc) ∈ row_data rows (map resize columns) columns_to_ignore).
Proof.
  intros He. destruct (row_data_entry _ _ _ _ _ _ _ _ He) as (Hr & -> & ->). split.
  - rewrite py_bool_true. by setoid_rewrite row_cols_elem.
  - intros radius resize. apply row_data_elem. exists (i, ys, ye). split; [done|].
    simpl. unfold custom_cols.
    rewrite (filter_map_commute _ resize) by done.
    rewrite (filter_map_commute _ resize) by done.
    by rewrite py_bool_map.
Qed.

Lemma row_intersected_iff_witness :
  (true = true <->
     exists c, c ∈ [("C1"%string, 2, 2, 1); ("C2"%string, 5, 1, 2)] /\
               (col_label c ∉ ({["C1"%string]} : gset string)) /\
               0 <= col_cy c /\ col_cy c < 5) /\
  (forall radius : column -> Q,
     let resize := fun c : column => (col_label c, col_cx c, col_cy c, radius c) in
     (1%Z, 0, 5, true, map resize [("C2"%string, 5, 1, 2)])
       ∈ row_data [(1%Z, 0, 5)]
           (map resize [("C1"%string, 2, 2, 1); ("C2"%string, 5, 1, 2)]) {["C1"%string]}).
Proof.
  apply (row_intersected_iff [(1%Z, 0, 5)]
           [("C1"%string, 2, 2, 1); ("C2"%string, 5, 1, 2)] {["C1"%string]}).
  vm_compute. apply list_elem_of_here.
Defined.

(** ** Cut intervals of a row *)

Lemma clamp_cut_bounds hall_width c iv :
  clamp_cut hall_width c = Some iv -> 0 <= iv.1 /\ iv.1 < iv.2 /\ iv.2 <= hall_width.
Proof.
  destruct c as [[[lbl cx] cy] cr]. unfold clamp_cut.
  destruct (Qgt_bool _ _) eqn:E; [|discriminate]. intros [= <-]. simpl. Qbool.
  revert E. destruct (Qlt_bool (cx - cr) 0) eqn:E1;
    destruct (Qgt_bool (cx + cr) hall_width) eqn:E2; Qbool; intros E; lra.
Qed.

Lemma cuts_of_bounds hall_width row_cols :
  Forall (fun c => 0 <= c.1 /\ c.1 < c.2 /\ c.2 <= hall_width) (cuts_of hall_width row_cols).
Proof.
  apply Forall_forall. intros iv Hiv. apply list_elem_of_omap in Hiv as (c & _ & Hc).
  by apply (clamp_cut_bounds hall_width c).
Qed.

Lemma merged_cuts_within hall_width row_cols :
  cuts_within 0 hall_width (merge_intervals (cuts_of hall_width row_cols)).
Proof.
  split; [apply merge_intervals_gapped|].
  apply merge_intervals_Forall; [|apply cuts_of_bounds].
  intros a b Ha Hb. simpl. destruct (py_max_cases a.2 b.2) as [[-> ?]|[-> ?]]; lra.
Qed.

(** C4.  For every intersected row (hall width > 0, the row marked as
    custom in [row_data]) the summary prints the merged cut intervals and
    the leftover segments, and these together tile [0, hall_width]: each
    is a span of positive width inside, every point of [0, hall_width]
    lies in one of them, and no two of them share more than an end
    point. *)
Theorem cuts_and_segments_partition (hall_width : Q) (rows : list row)
    (columns : list column) (columns_to_ignore : gset string) i ys ye rc :
  0 < hall_width ->
  (i, ys, ye, true, rc) ∈ row_data rows columns columns_to_ignore ->
  exists merged leftover,
    row_summary hall_width (i, ys, ye, true, rc) =
      [RowLine i ys ye (ye - ys) true; ColumnsLine (map col_label rc);
       FullRowLine hall_width (ye - ys) merged]
      ++ map (fun seg => LeftoverLine seg.1 seg.2 (seg.2 - seg.1)) leftover /\
    rc <> [] /\
    partitions hall_width (merged ++ leftover).
Proof.
  intros HW He.
  exists (merge_intervals (cuts_of hall_width rc)),
    (leftover_segments hall_width (merge_intervals (cuts_of hall_width rc))).
  split; [reflexivity|]. split.
  - apply row_data_entry in He as (_ & Hb & _). by destruct rc.
  - apply cuts_and_gaps_partition; [done|]. apply merged_cuts_within.
Qed.

Lemma cuts_and_segments_partition_witness :
  exists merged leftover,
    row_summary 10 (1%Z, 0, 5, true, [("C2"%string, 5, 1, 2)]) =
      [RowLine 1 0 5 (5 - 0) true; ColumnsLine (map col_label [("C2"%string, 5, 1, 2)]);
       FullRowLine 10 (5 - 0) merged]
      ++ map (fun seg => LeftoverLine seg.1 seg.2 (seg.2 - seg.1)) leftover /\
    [("C2"%string, 5, 1, 2)] <> [] /\
    partitions 10 (merged ++ leftover).
Proof.
  apply (cuts_and_segments_partition 10 [(1%Z, 0, 5)]
           [("C1"%string, 2, 2, 1); ("C2"%string, 5, 1, 2)] {["C1"%string]}).
  - reflexivity.
  - vm_compute. apply list_elem_of_here.
Defined.

(** C8.  For every row with no column that is not ignored in its band
    (hall width > 0), the row is marked as normal, the summary prints the
    one full-width line and neither cut intervals nor leftover lines; and
    the cut and leftover computation, run on the row's empty column list,
    gives no cut interval and the single segment (0, hall_width). *)
Theorem plain_row_full_width (hall_width : Q) (rows : list row)
    (columns : list column) (columns_to_ignore : gset string) i ys ye b rc :
  0 < hall_width ->
  (i, ys, ye, b, rc) ∈ row_data rows columns columns_to_ignore ->
  (forall c, c ∈ columns -> col_label c ∉ columns_to_ignore ->
             ~ (ys <= col_cy c /\ col_cy c < ye)) ->
  b = false /\ rc = [] /\
  row_summary hall_width (i, ys, ye, b, rc) =
    [RowLine i ys ye (ye - ys) false; NormalRowLine hall_width (ye - ys)] /\
  merge_intervals (cuts_of hall_width rc) = [] /\
  leftover_segments hall_width (merge_intervals (cuts_of hall_width rc))
    = [(0, hall_width)].
Proof.
  intros HW He Hnone. destruct (row_data_entry _ _ _ _ _ _ _ _ He) as (Hr & -> & Hrc).
  assert (E : rc = []).
  { destruct rc as [|c rc]; [done|]. exfalso.
    assert (Hc : c ∈ c :: rc) by (apply elem_of_cons; by left).
    rewrite Hrc in Hc. apply row_cols_elem in Hc as (Hc & Hl & Hband).
    by apply (Hnone c). }
  subst rc. rewrite E. split_and!; try reflexivity.
  unfold leftover_segments. simpl.
  assert (E1 : Qlt_bool 0 hall_width = true) by (by apply Qlt_bool_true).
  by rewrite E1.
Qed.

Lemma plain_row_full_width_witness :
  false = false /\ (@nil column) = [] /\
  row_summary 10 (1%Z, 0, 5, false, []) =
    [RowLine 1 0 5 (5 - 0) false; NormalRowLine 10 (5 - 0)] /\
  merge_intervals (cuts_of 10 []) = [] /\
  leftover_segments 10 (merge_intervals (cuts_of 10 [])) = [(0, 10)].
Proof.
  apply (plain_row_full_width 10 [(1%Z, 0, 5)]
           [("C1"%string, 2, 2, 1); ("C2"%string, 5, 7, 2)] {["C1"%string]}).
  - reflexivity.
  - vm_compute. apply list_elem_of_here.
  - intros c Hc Hl [H1 H2]. apply elem_of_cons in Hc as [->|Hc].
    + apply Hl. vm_compute. reflexivity.
    + apply list_elem_of_singleton in Hc as ->. revert H2. vm_compute. discriminate.
Defined.

(** ** Ignored columns *)

Lemma draw_column_artists c columns :
  c ∈ columns ->
  Circle (col_cx c) (col_cy c) (col_radius c) ∈ flat_map draw_column columns /\
  ColumnText (col_cx c) (col_cy c) (col_label c) ∈ flat_map draw_column columns.
Proof.
  intros Hc. rewrite !list_elem_of_In, !in_flat_map. apply list_elem_of_In in Hc.
  destruct c as [[[lbl cx] cy] cr].
  split; exists (lbl, cx, cy, cr); (split; [done|]); simpl; auto.
Qed.

(** C3, as amended.  For every row and every column whose label is in the
    ignored set, wherever its centre lies, the column is not in the row's
    column list and its label is not among the labels printed for the row:
    the list holds only columns that are not ignored, with their centre
    in the band.  The column is still drawn, as a circle with its label,
    whether ignored or not. *)
Theorem ignored_column_not_listed (hall_width : Q) (rows : list row)
    (columns : list column) (columns_to_ignore : gset string) i ys ye b rc c :
  (i, ys, ye, b, rc) ∈ row_data rows columns columns_to_ignore ->
  c ∈ columns -> col_label c ∈ columns_to_ignore ->
  (c ∉ rc) /\ (col_label c ∉ map col_label rc) /\
  (forall c', c' ∈ rc <->
     c' ∈ columns /\ (col_label c' ∉ columns_to_ignore) /\
     ys <= col_cy c' /\ col_cy c' < ye) /\
  Circle (col_cx c) (col_cy c) (col_radius c)
    ∈ plot_artists (plot_prayer_hall rows hall_width columns columns_to_ignore) /\
  ColumnText (col_cx c) (col_cy c) (col_label c)
    ∈ plot_artists (plot_prayer_hall rows hall_width columns columns_to_ignore).
Proof.
  intros He Hc Hl. destruct (row_data_entry _ _ _ _ _ _ _ _ He) as (Hr & _ & ->).
  split_and!.
  - rewrite row_cols_elem. tauto.
  - rewrite list_elem_of_In, in_map_iff. intros (c' & E & Hc').
    apply list_elem_of_In, row_cols_elem in Hc' as (_ & Hl' & _).
    apply Hl'. by rewrite E.
  - intros c'. apply row_cols_elem.
  - simpl. apply elem_of_app. right. by apply draw_column_artists.
  - simpl. apply elem_of_app. right. by apply draw_column_artists.
Qed.

Lemma ignored_column_not_listed_witness :
  (("C1"%string, 2, 2, 1) ∉ [("C2"%string, 5, 1, 2)]) /\
  ("C1"%string ∉ map col_label [("C2"%string, 5, 1, 2)]) /\
  (forall c', c' ∈ [("C2"%string, 5, 1, 2)] <->
     c' ∈ [("C1"%string, 2, 2, 1); ("C2"%string, 5, 1, 2)] /\
     (col_label c' ∉ ({["C1"%string]} : gset string)) /\
     0 <= col_cy c' /\ col_cy c' < 5) /\
  Circle 2 2 1
    ∈ plot_artists (plot_prayer_hall [(1%Z, 0, 5)] 10
                      [("C1"%string, 2, 2, 1); ("C2"%string, 5, 1, 2)] {["C1"%string]}) /\
  ColumnText 2 2 "C1"
    ∈ plot_artists (plot_prayer_hall [(1%Z, 0, 5)] 10
                      [("C1"%string, 2, 2, 1); ("C2"%string, 5, 1, 2)] {["C1"%string]}).
Proof.
  apply (ignored_column_not_listed 10 [(1%Z, 0, 5)]
           [("C1"%string, 2, 2, 1); ("C2"%string, 5, 1, 2)] {["C1"%string]}
           1%Z 0 5 true [("C2"%string, 5, 1, 2)] ("C1"%string, 2, 2, 1)).
  - vm_compute. apply list_elem_of_here.
  - apply list_elem_of_here.
  - vm_compute. reflexivity.
Defined.

(** C3, as stated, fails: with the one row (1, 0, 5), the column
    ("C1", 2, 2, 1) and "C1" ignored, the centre y = 2 lies in the band
    [0, 5), yet the row's column list is empty and no label is printed
    for it. *)
Lemma ignored_column_counterexample :
  let columns := [("C1"%string, 2, 2, 1)] in
  let columns_to_ignore : gset string := {["C1"%string]} in
  ("C1"%string, 2, 2, 1) ∈ columns /\
  "C1"%string ∈ columns_to_ignore /\
  in_band 2 0 5 = true /\
  row_data [(1%Z, 0, 5)] columns columns_to_ignore = [(1%Z, 0, 5, false, [])] /\
  plot_printed (plot_prayer_hall [(1%Z, 0, 5)] 10 columns columns_to_ignore)
    = [RowLine 1 0 5 (5 - 0) false; NormalRowLine 10 (5 - 0)] /\
  ~ (exists i ys ye b rc,
       (i, ys, ye, b, rc) ∈ row_data [(1%Z, 0, 5)] columns columns_to_ignore /\
       "C1"%string ∈ map col_label rc).
Proof.
  cbv zeta. split_and!.
  - apply list_elem_of_here.
  - vm_compute. reflexivity.
  - reflexivity.
  - vm_compute. reflexivity.
  - vm_compute. reflexivity.
  - intros (i & ys & ye & b & rc & He & Hl).
    assert (E : row_data [(1%Z, 0, 5)] [("C1"%string, 2, 2, 1)] {["C1"%string]}
                = [(1%Z, 0, 5, false, [])]) by (vm_compute; reflexivity).
    rewrite E in He. apply list_elem_of_singleton in He. injection He as -> -> -> -> ->.
    simpl in Hl. by apply elem_of_nil in Hl.
Qed.

(** ** Parsing the column lines *)

Section ParsingFacts.

Variable py_float : string -> option Q.

Lemma float_of_never_out_of_fuel s : float_of py_float s <> OutOfFuel.
Proof. unfold float_of. by destruct (py_float s). Qed.

(** Fewer than four fields: the explicit test raises. *)
Lemma parse_column_line_short line :
  (length (split ","%char line) < 4)%nat ->
  parse_column_line py_float line = Raise (ValueError (InvalidColumnLine line)).
Proof.
  intros Hlen. unfold parse_column_line. rewrite length_map.
  by apply Nat.ltb_lt in Hlen as ->.
Qed.

(** More than four fields: the unpacking raises. *)
Lemma parse_column_line_long line :
  (4 < length (split ","%char line))%nat ->
  parse_column_line py_float line = Raise (ValueError TooManyValuesToUnpack).
Proof.
  intros Hlen. unfold parse_column_line. rewrite length_map.
  assert (E : (length (split ","%char line) <? 4)%nat = false) by (apply Nat.ltb_ge; lia).
  rewrite E.
  destruct (split ","%char line) as [|p1 [|p2 [|p3 [|p4 [|p5 ps]]]]]; simpl in Hlen; try lia.
  reflexivity.
Qed.

(** A column record comes from four fields only. *)
Lemma parse_column_line_ok line c :
  parse_column_line py_float line = Ok c -> length (split ","%char line) = 4%nat.
Proof.
  intros Hok.
  destruct (Nat.lt_total (length (split ","%char line)) 4) as [Hlt|[E|Hgt]]; [|done|].
  - rewrite (parse_column_line_short line Hlt) in Hok. discriminate.
  - rewrite (parse_column_line_long line Hgt) in Hok. discriminate.
Qed.

Lemma parse_column_line_never_out_of_fuel line :
  parse_column_line py_float line <> OutOfFuel.
Proof.
  unfold parse_column_line. destruct (_ <? 4)%nat; [discriminate|].
  destruct (map strip (split ","%char line)) as [|p1 [|p2 [|p3 [|p4 [|p5 ps]]]]];
    try discriminate.
  unfold float_of. destruct (py_float p2); [|discriminate].
  destruct (py_float p3); [|discriminate].
  destruct (py_float p4); discriminate.
Qed.

Lemma is_empty_string_false s : is_empty_string s = false <-> s <> EmptyString.
Proof. by destruct s. Qed.

(** A line with another number of fields than four stops the loop with
    a [ValueError], raised at that line or at one before it. *)
Lemma parse_columns_loop_rejects lines columns line :
  line ∈ lines -> strip line <> EmptyString ->
  length (split ","%char (strip line)) <> 4%nat ->
  exists why, parse_columns_loop py_float lines columns = Raise (ValueError why).
Proof.
  intros Hin Hne Hlen. revert columns.
  induction lines as [|l lines IH]; intros columns; [by apply elem_of_nil in Hin|].
  simpl. destruct (is_empty_string (strip l)) eqn:E.
  - apply elem_of_cons in Hin as [->|Hin].
    + apply is_empty_string_false in Hne. congruence.
    + by apply IH.
  - destruct (parse_column_line py_float (strip l)) as [c|[why]|] eqn:Ep; simpl.
    + apply elem_of_cons in Hin as [->|Hin].
      * by apply parse_column_line_ok in Ep.
      * by apply IH.
    + by exists why.
    + by apply parse_column_line_never_out_of_fuel in Ep.
Qed.

(** C10.  [parse_columns] accepts only lines of exactly four
    comma-separated fields.  For every line of the text that is not
    empty after stripping and whose number of fields is not 4: the loop
    body raises [ValueError] on it, through the explicit length test
    when there are fewer than 4 fields and through the 4-way unpacking
    when there are more; the call as a whole raises [ValueError]; and
    so it returns no column list. *)
Theorem parse_columns_needs_four_fields (txt line : string) :
  line ∈ splitlines (strip txt) -> strip line <> EmptyString ->
  length (split ","%char (strip line)) <> 4%nat ->
  parse_column_line py_float (strip line) =
    Raise (ValueError (if (length (split ","%char (strip line)) <? 4)%nat
                       then InvalidColumnLine (strip line)
                       else TooManyValuesToUnpack)) /\
  (exists why, parse_columns py_float txt = Raise (ValueError why)) /\
  (forall columns, parse_columns py_float txt <> Ok columns).
Proof.
  intros Hin Hne Hlen. split_and!.
  - destruct (_ <? 4)%nat eqn:E.
    + apply Nat.ltb_lt in E. by apply parse_column_line_short.
    + apply Nat.ltb_ge in E. apply parse_column_line_long. lia.
  - by apply (parse_columns_loop_rejects _ _ line).
  - intros columns Hok.
    destruct (parse_columns_loop_rejects _ [] line Hin Hne Hlen) as [why Hwhy].
    unfold parse_columns in Hok. congruence.
Qed.

End ParsingFacts.

Lemma parse_columns_needs_four_fields_witness :
  let txt := ("C1, 1, 2, 3" ++ String "010" "C2, 5, 1")%string in
  (parse_column_line (fun _ => Some 1) (strip "C2, 5, 1") =
     Raise (ValueError (if (length (split ","%char (strip "C2, 5, 1")) <? 4)%nat
                        then InvalidColumnLine (strip "C2, 5, 1")
                        else TooManyValuesToUnpack)) /\
   (exists why, parse_columns (fun _ => Some 1) txt = Raise (ValueError why)) /\
   (forall columns, parse_columns (fun _ => Some 1) txt <> Ok columns)) /\
  (parse_column_line (fun _ => Some 1) (strip "C3,1,2,3,4") =
     Raise (ValueError (if (length (split ","%char (strip "C3,1,2,3,4")) <? 4)%nat
                        then InvalidColumnLine (strip "C3,1,2,3,4")
                        else TooManyValuesToUnpack)) /\
   (exists why, parse_columns (fun _ => Some 1) "C3,1,2,3,4" = Raise (ValueError why)) /\
   (forall columns, parse_columns (fun _ => Some 1) "C3,1,2,3,4" <> Ok columns)).
Proof.
  cbv zeta. split.
  - apply (parse_columns_needs_four_fields (fun _ => Some 1)
             ("C1, 1, 2, 3" ++ String "010" "C2, 5, 1")%string "C2, 5, 1").
    + vm_compute. apply list_elem_of_further, list_elem_of_here.
    + vm_compute. discriminate.
    + vm_compute. discriminate.
  - apply (parse_columns_needs_four_fields (fun _ => Some 1) "C3,1,2,3,4" "C3,1,2,3,4").
    + vm_compute. apply list_elem_of_here.
    + vm_compute. discriminate.
    + vm_compute. discriminate.
Defined.


(** ** More on the row builder *)

(** X1.  In the rows that [build_rows] returns, whatever the heights,
    only the last row reaches the end of the hall: every row starts
    before the total length, every row but the last also ends before it,
    and the last row ends at the total length. *)
Theorem build_rows_only_last_reaches_end (fuel : nat) (total_length default_height : Q)
    (forced_heights : gmap Z Q) (rows : list row) :
  build_rows fuel total_length default_height forced_heights = Ok rows ->
  forall j r, rows !! j = Some r ->
    y_start r < total_length /\
    ((S j < length rows)%nat -> y_end r < total_length) /\
    (S j = length rows -> y_end r == total_length).
Proof.
  intros Hok j r Hj.
  destruct (build_rows_loop_spec _ _ _ _ _ _ _ Hok) as (Hc & Hb & Hl).
  rewrite Forall_forall in Hb.
  destruct (Hb r (list_elem_of_lookup_2 _ _ _ Hj)) as [Hlt He]. split_and!.
  - done.
  - intros Hlen. by apply (build_rows_loop_inner _ _ _ _ _ _ _ Hok j r Hj Hlen).
  - intros Hlen. rewrite (last_end_lookup _ _ r) in Hl by (by rewrite <- Hlen).
    pose proof (clamped_end_le total_length (y_start r)
      (resolved_height forced_heights default_height (row_index r))) as Hle.
    rewrite <- He in Hle. lra.
Qed.

Lemma build_rows_only_last_reaches_end_witness :
  (y_start (2%Z, 2, 5 # 2) < 3 /\
   ((S 1 < 3)%nat -> y_end (2%Z, 2, 5 # 2) < 3) /\
   (S 1 = 3%nat -> y_end (2%Z, 2, 5 # 2) == 3)) /\
  (y_start (3%Z, 5 # 2, 3) < 3 /\
   ((S 2 < 3)%nat -> y_end (3%Z, 5 # 2, 3) < 3) /\
   (S 2 = 3%nat -> y_end (3%Z, 5 # 2, 3) == 3)).
Proof.
  split.
  - apply (build_rows_only_last_reaches_end 5 3 2 {[2%Z := 1 # 2]}
             [(1%Z, 0, 2); (2%Z, 2, 5 # 2); (3%Z, 5 # 2, 3)]).
    + vm_compute. reflexivity.
    + reflexivity.
  - apply (build_rows_only_last_reaches_end 5 3 2 {[2%Z := 1 # 2]}
             [(1%Z, 0, 2); (2%Z, 2, 5 # 2); (3%Z, 5 # 2, 3)]).
    + vm_compute. reflexivity.
    + reflexivity.
Defined.

(** X2.  With a total length > 0, a default height that is not positive
    and no positive forced height, the loop of [build_rows] has no end:
    no fuel is enough, and no rows are returned. *)
Theorem build_rows_never_returns (total_length default_height : Q)
    (forced_heights : gmap Z Q) :
  0 < total_length -> default_height <= 0 ->
  map_Forall (fun _ h => h <= 0) forced_heights ->
  forall fuel, build_rows fuel total_length default_height forced_heights = OutOfFuel.
Proof.
  intros Ht Hd Hf fuel. apply build_rows_loop_diverges; [done|done|done|lra].
Qed.

Lemma build_rows_never_returns_witness :
  build_rows 1000 5 0 {[2%Z := -1]} = OutOfFuel.
Proof.
  apply (build_rows_never_returns 5 0 {[2%Z := -1]}).
  - reflexivity.
  - discriminate.
  - apply map_Forall_singleton. discriminate.
Defined.

(** ** More on sorting and merging *)

Lemma insert_by_start_perm iv l : insert_by_start iv l ≡ₚ iv :: l.
Proof.
  induction l as [|x l IH]; simpl; [done|].
  destruct (Qlt_bool iv.1 x.1); [done|]. rewrite IH. apply Permutation_swap.
Qed.

Lemma sort_by_start_acc_perm acc l :
  foldl (fun acc iv => insert_by_start iv acc) acc l ≡ₚ acc ++ l.
Proof.
  revert acc. induction l as [|x l IH]; intros acc; simpl.
  - by rewrite app_nil_r.
  - rewrite IH, insert_by_start_perm. simpl. apply Permutation_middle.
Qed.

Lemma sort_by_start_perm l : sort_by_start l ≡ₚ l.
Proof. apply (sort_by_start_acc_perm [] l). Qed.

Lemma filter_none {A} (p : A -> bool) l :
  Forall (fun y => p y = false) l -> List.filter p l = [].
Proof.
  induction 1 as [|y l Hy _ IH]; simpl; [done|]. by rewrite Hy.
Qed.

(** Among the intervals with one and the same start, a new one goes to
    the back. *)
Lemma insert_by_start_stable k iv l :
  sorted_by_start l ->
  List.filter (fun y => Qeq_bool y.1 k) (insert_by_start iv l)
  = List.filter (fun y => Qeq_bool y.1 k) l ++ List.filter (fun y => Qeq_bool y.1 k) [iv].
Proof.
  unfold sorted_by_start. induction 1 as [|x l Hs IH Hx]; [done|].
  cbn [insert_by_start]. destruct (Qlt_bool iv.1 x.1) eqn:E.
  - Qbool. remember (x :: l) as rest eqn:Er. cbn [List.filter].
    destruct (Qeq_bool iv.1 k) eqn:Ek; [|by rewrite app_nil_r].
    apply Qeq_bool_iff in Ek. subst rest.
    rewrite (filter_none _ (x :: l)); [done|].
    constructor.
    + apply not_true_iff_false. rewrite Qeq_bool_iff. lra.
    + eapply Forall_impl; [exact Hx|]. unfold start_le. intros y Hy.
      apply not_true_iff_false. rewrite Qeq_bool_iff. lra.
  - cbn [List.filter]. rewrite IH. by destruct (Qeq_bool x.1 k).
Qed.

Lemma sort_by_start_acc_sorted acc l :
  sorted_by_start acc ->
  sorted_by_start (foldl (fun acc iv => insert_by_start iv acc) acc l).
Proof.
  revert acc. induction l as [|x l IH]; intros acc Ha; simpl; [done|].
  apply IH. by apply insert_by_start_sorted.
Qed.

Lemma sort_by_start_acc_stable k acc l :
  sorted_by_start acc ->
  List.filter (fun y => Qeq_bool y.1 k) (foldl (fun acc iv => insert_by_start iv acc) acc l)
  = List.filter (fun y => Qeq_bool y.1 k) acc ++ List.filter (fun y => Qeq_bool y.1 k) l.
Proof.
  revert acc. induction l as [|x l IH]; intros acc Ha.
  - simpl. by rewrite app_nil_r.
  - cbn [foldl]. rewrite IH by (by apply insert_by_start_sorted).
    rewrite insert_by_start_stable by done.
    change (x :: l) with ([x] ++ l). rewrite (List.filter_app _ [x] l).
    by rewrite <- app_assoc.
Qed.

(** X6.  The sort of the cuts is a stable sort by start: its result is a
    permutation of the cuts, has the starts in ascending order, and keeps
    the cuts of one and the same start in the order they had. *)
Theorem sort_by_start_stable_sort (cuts : list interval) :
  sort_by_start cuts ≡ₚ cuts /\
  sorted_by_start (sort_by_start cuts) /\
  forall k, List.filter (fun y => Qeq_bool y.1 k) (sort_by_start cuts)
            = List.filter (fun y => Qeq_bool y.1 k) cuts.
Proof.
  split_and!.
  - apply sort_by_start_perm.
  - apply sort_by_start_sorted.
  - intros k. apply (sort_by_start_acc_stable k [] cuts). constructor.
Qed.

Lemma merged_pair_cover (prev iv : interval) x :
  prev.1 <= iv.1 -> iv.1 <= prev.2 ->
  in_interval x (prev.1, py_max prev.2 iv.2) <-> in_interval x prev \/ in_interval x iv.
Proof.
  intros H1 H2. unfold in_interval. simpl.
  destruct (py_max_cases prev.2 iv.2) as [[-> ?]|[-> ?]]; split.
  - intros [? ?]. left. lra.
  - intros [[? ?]|[? ?]]; lra.
  - intros [? ?]. destruct (Qlt_le_dec prev.2 x); [right|left]; lra.
  - intros [[? ?]|[? ?]]; lra.
Qed.

Lemma merge_from_cover prev l x :
  sorted_by_start (prev :: l) ->
  (exists m, m ∈ merge_from prev l /\ in_interval x m) <->
  (exists iv, iv ∈ prev :: l /\ in_interval x iv).
Proof.
  revert prev. induction l as [|iv l IH]; intros prev Hs; [done|].
  cbn [merge_from]. destruct (Qle_bool iv.1 prev.2) eqn:E.
  - apply Qle_bool_iff in E.
    pose proof Hs as Hs'. apply StronglySorted_inv in Hs' as [Hs' Hx].
    apply Forall_cons in Hx as [Hiv Hx]. unfold start_le in Hiv.
    rewrite (IH (prev.1, py_max prev.2 iv.2)).
    2:{ apply (sorted_same_start prev); [done|].
        apply StronglySorted_inv in Hs' as [Hs' _]. by constructor. }
    split.
    + intros (m & Hm & Hin). apply elem_of_cons in Hm as [->|Hm].
      * destruct (proj1 (merged_pair_cover prev iv x Hiv E) Hin) as [Hin'|Hin'].
        -- exists prev. split; [apply elem_of_cons; by left|done].
        -- exists iv. split; [|done]. apply elem_of_cons. right. apply elem_of_cons. by left.
      * exists m. split; [|done]. apply elem_of_cons. right. apply elem_of_cons. by right.
    + intros (m & Hm & Hin).
      apply elem_of_cons in Hm as [->|Hm]; [|apply elem_of_cons in Hm as [->|Hm]].
      * exists (prev.1, py_max prev.2 iv.2). split; [apply elem_of_cons; by left|].
        apply merged_pair_cover; auto.
      * exists (prev.1, py_max prev.2 iv.2). split; [apply elem_of_cons; by left|].
        apply merged_pair_cover; auto.
      * exists m. split; [|done]. apply elem_of_cons. by right.
  - apply StronglySorted_inv in Hs as [Hs _]. specialize (IH iv Hs). split.
    + intros (m & Hm & Hin). apply elem_of_cons in Hm as [->|Hm].
      * exists prev. split; [apply elem_of_cons; by left|done].
      * destruct (proj1 IH (ex_intro _ m (conj Hm Hin))) as (iv' & Hiv' & Hin').
        exists iv'. split; [|done]. apply elem_of_cons. by right.
    + intros (m & Hm & Hin). apply elem_of_cons in Hm as [->|Hm].
      * exists prev. split; [apply elem_of_cons; by left|done].
      * destruct (proj2 IH (ex_intro _ m (conj Hm Hin))) as (iv' & Hiv' & Hin').
        exists iv'. split; [|done]. apply elem_of_cons. by right.
Qed.

(** X7.  Merging loses and adds no covered point: a point lies in one of
    the merged intervals exactly when it lies in one of the cuts. *)
Theorem merge_intervals_same_cover (cuts : list interval) (x : Q) :
  (exists m, m ∈ merge_intervals cuts /\ in_interval x m) <->
  (exists iv, iv ∈ cuts /\ in_interval x iv).
Proof.
  unfold merge_intervals. pose proof (sort_by_start_sorted cuts) as Hs.
  pose proof (sort_by_start_perm cuts) as Hp.
  assert (Hiff : (exists iv, iv ∈ cuts /\ in_interval x iv) <->
                 (exists iv, iv ∈ sort_by_start cuts /\ in_interval x iv)).
  { split; intros (iv & Hiv & Hin); exists iv; (split; [|done]).
    - by rewrite Hp.
    - by rewrite <- Hp. }
  rewrite Hiff. clear Hiff Hp.
  destruct (sort_by_start cuts) as [|iv l]; [done|].
  rewrite merge_sorted_cons. by apply merge_from_cover.
Qed.

Lemma merge_from_contains prev l iv :
  sorted_by_start (prev :: l) -> iv ∈ prev :: l ->
  exists m, m ∈ merge_from prev l /\ m.1 <= iv.1 /\ iv.2 <= m.2.
Proof.
  revert prev iv. induction l as [|iv0 l IH]; intros prev iv Hs Hiv.
  - apply list_elem_of_singleton in Hiv as ->. exists prev.
    split; [by apply list_elem_of_singleton|lra].
  - cbn [merge_from]. destruct (Qle_bool iv0.1 prev.2) eqn:E.
    + pose proof Hs as Hs'. apply StronglySorted_inv in Hs' as [Hs' Hx].
      apply Forall_cons in Hx as [Hiv0 Hx]. unfold start_le in Hiv0.
      assert (Hs2 : sorted_by_start ((prev.1, py_max prev.2 iv0.2) :: l)).
      { apply (sorted_same_start prev); [done|].
        apply StronglySorted_inv in Hs' as [Hs' _]. by constructor. }
      assert (Hhead : exists m, m ∈ merge_from (prev.1, py_max prev.2 iv0.2) l /\
                        m.1 <= prev.1 /\ py_max prev.2 iv0.2 <= m.2).
      { apply (IH _ (prev.1, py_max prev.2 iv0.2) Hs2). apply elem_of_cons. by left. }
      apply elem_of_cons in Hiv as [->|Hiv]; [|apply elem_of_cons in Hiv as [->|Hiv]].
      * destruct Hhead as (m & Hm & H1 & H2). exists m. split; [done|].
        destruct (py_max_cases prev.2 iv0.2) as [[E' ?]|[E' ?]]; rewrite E' in H2; lra.
      * destruct Hhead as (m & Hm & H1 & H2). exists m. split; [done|].
        destruct (py_max_cases prev.2 iv0.2) as [[E' ?]|[E' ?]]; rewrite E' in H2; lra.
      * apply (IH _ iv Hs2). apply elem_of_cons. by right.
    + apply StronglySorted_inv in Hs as [Hs _].
      apply elem_of_cons in Hiv as [->|Hiv].
      * exists prev. split; [apply elem_of_cons; by left|lra].
      * destruct (IH iv0 iv Hs Hiv) as (m & Hm & ?). exists m.
        split; [apply elem_of_cons; by right|done].
Qed.

Lemma merge_intervals_contains cuts iv :
  iv ∈ cuts -> exists m, m ∈ merge_intervals cuts /\ m.1 <= iv.1 /\ iv.2 <= m.2.
Proof.
  intros Hiv. unfold merge_intervals. pose proof (sort_by_start_sorted cuts) as Hs.
  rewrite <- (sort_by_start_perm cuts) in Hiv.
  destruct (sort_by_start cuts) as [|iv0 l]; [by apply elem_of_nil in Hiv|].
  rewrite merge_sorted_cons. by apply merge_from_contains.
Qed.

Lemma merge_from_length prev l : (length (merge_from prev l) <= S (length l))%nat.
Proof.
  revert prev. induction l as [|iv l IH]; intros prev; simpl; [lia|].
  destruct (Qle_bool iv.1 prev.2); simpl.
  - specialize (IH (prev.1, py_max prev.2 iv.2)). lia.
  - specialize (IH iv). lia.
Qed.

(** X8.  Merging invents nothing: every merged interval starts where
    some cut starts and ends where some cut ends, every cut lies within
    one merged interval, and there are no more merged intervals than
    cuts. *)
Theorem merge_intervals_from_cuts (cuts : list interval) :
  Forall (fun m => (exists iv, iv ∈ cuts /\ m.1 = iv.1) /\
                   (exists iv, iv ∈ cuts /\ m.2 = iv.2)) (merge_intervals cuts) /\
  Forall (fun iv => exists m, m ∈ merge_intervals cuts /\ m.1 <= iv.1 /\ iv.2 <= m.2) cuts /\
  (length (merge_intervals cuts) <= length cuts)%nat.
Proof.
  split_and!.
  - apply merge_intervals_Forall.
    + intros a b [Ha1 Ha2] [Hb1 Hb2]. simpl. split; [done|].
      by destruct (py_max_cases a.2 b.2) as [[-> ?]|[-> ?]].
    + apply Forall_forall. intros iv Hiv. split; by exists iv.
  - apply Forall_forall. intros iv Hiv. by apply merge_intervals_contains.
  - unfold merge_intervals. rewrite <- (Permutation_length (sort_by_start_perm cuts)).
    destruct (sort_by_start cuts) as [|iv l]; [done|].
    rewrite merge_sorted_cons. apply merge_from_length.
Qed.

(** ** More on cuts and leftover segments *)

Lemma clamp_cut_none (hall_width : Q) (lbl : string) (cx cy cr : Q) :
  hall_width <= 0 \/ cr <= 0 \/ cx + cr <= 0 \/ hall_width <= cx - cr ->
  clamp_cut hall_width (lbl, cx, cy, cr) = None.
Proof.
  intros Hout. destruct (clamp_cut hall_width (lbl, cx, cy, cr)) as [iv|] eqn:E; [|done].
  exfalso. revert E. unfold clamp_cut. cbv beta zeta iota.
  destruct (Qlt_bool (cx - cr) 0) eqn:E1;
    destruct (Qgt_bool (cx + cr) hall_width) eqn:E2; cbv iota;
    match goal with |- context [Qgt_bool ?a ?b] => destruct (Qgt_bool a b) eqn:E3 end;
    Qbool; try discriminate; intros _;
    destruct Hout as [?|[?|[?|?]]]; lra.
Qed.

(** X9.  A column leaves no cut in a row when the hall has no width, when
    its radius is not positive, or when its span does not reach into the
    hall (cx + cr <= 0 or hall_width <= cx - cr); and a cut that a column
    leaves lies within the hall and has a positive width. *)
Theorem clamp_cut_outside_or_inside (hall_width : Q) (lbl : string) (cx cy cr : Q) :
  (hall_width <= 0 \/ cr <= 0 \/ cx + cr <= 0 \/ hall_width <= cx - cr ->
   clamp_cut hall_width (lbl, cx, cy, cr) = None) /\
  (forall iv, clamp_cut hall_width (lbl, cx, cy, cr) = Some iv ->
     0 <= iv.1 /\ iv.1 < iv.2 /\ iv.2 <= hall_width /\
     0 < hall_width /\ 0 < cr /\ 0 < cx + cr /\ cx - cr < hall_width).
Proof.
  split; [apply clamp_cut_none|]. intros iv Hiv.
  destruct (clamp_cut_bounds _ _ _ Hiv) as (H0 & H1 & H2). split_and!; try done.
  - destruct (Qlt_le_dec 0 hall_width) as [|Hle]; [done|].
    rewrite (clamp_cut_none hall_width lbl cx cy cr) in Hiv by auto. discriminate.
  - destruct (Qlt_le_dec 0 cr) as [|Hle]; [done|].
    rewrite (clamp_cut_none hall_width lbl cx cy cr) in Hiv by auto. discriminate.
  - destruct (Qlt_le_dec 0 (cx + cr)) as [|Hle]; [done|].
    rewrite (clamp_cut_none hall_width lbl cx cy cr) in Hiv by auto. discriminate.
  - destruct (Qlt_le_dec (cx - cr) hall_width) as [|Hle]; [done|].
    rewrite (clamp_cut_none hall_width lbl cx cy cr) in Hiv by auto. discriminate.
Qed.

Lemma total_width_app l1 l2 :
  total_width (l1 ++ l2) == total_width l1 + total_width l2.
Proof.
  induction l1 as [|p l1 IH].
  - change (total_width ([] ++ l2)) with (total_width l2).
    change (total_width []) with 0. lra.
  - change (total_width ((p :: l1) ++ l2)) with ((p.2 - p.1) + total_width (l1 ++ l2)).
    change (total_width (p :: l1)) with ((p.2 - p.1) + total_width l1).
    rewrite IH. lra.
Qed.

Lemma cuts_and_gaps_width start_x hall_width merged :
  start_x <= hall_width -> cuts_within start_x hall_width merged ->
  total_width merged + total_width (gaps_from start_x merged hall_width)
  == hall_width - start_x.
Proof.
  revert start_x. induction merged as [|c merged IH]; intros start_x Hle Hw.
  - cbn [gaps_from]. change (total_width []) with 0.
    destruct (Qlt_bool start_x hall_width) eqn:E; Qbool.
    + change (total_width [(start_x, hall_width)]) with ((hall_width - start_x) + 0). lra.
    + change (total_width []) with 0. lra.
  - apply cuts_within_tail in Hw as [Hc Hw].
    assert (Hc2 : c.2 <= hall_width) by lra. specialize (IH c.2 Hc2 Hw).
    cbn [gaps_from]. rewrite total_width_app.
    change (total_width (c :: merged)) with ((c.2 - c.1) + total_width merged).
    destruct (Qgt_bool c.1 start_x) eqn:E; Qbool.
    + change (total_width [(start_x, c.1)]) with ((c.1 - start_x) + 0). lra.
    + change (total_width []) with 0. lra.
Qed.

(** X10.  For every row's columns and every hall width > 0, the widths
    of the merged cut intervals and the widths of the leftover segments
    add up to the hall width. *)
Theorem cut_and_leftover_widths (hall_width : Q) (row_cols : list column) :
  0 < hall_width ->
  let merged := merge_intervals (cuts_of hall_width row_cols) in
  total_width merged + total_width (leftover_segments hall_width merged) == hall_width.
Proof.
  intros HW merged. rewrite leftover_segments_gaps.
  rewrite (cuts_and_gaps_width 0 hall_width merged); [lra|lra|].
  apply merged_cuts_within.
Qed.

Lemma cut_and_leftover_widths_witness :
  let merged := merge_intervals (cuts_of 10 [("C2"%string, 5, 1, 2); ("C3"%string, 9, 1, 2)]) in
  total_width merged + total_width (leftover_segments 10 merged) == 10.
Proof.
  apply (cut_and_leftover_widths 10 [("C2"%string, 5, 1, 2); ("C3"%string, 9, 1, 2)]).
  reflexivity.
Defined.

Lemma leftover_apart_merged hall_width merged seg m :
  0 < hall_width -> cuts_within 0 hall_width merged ->
  seg ∈ leftover_segments hall_width merged -> m ∈ merged -> apart seg m.
Proof.
  intros HW Hw Hseg Hm.
  destruct (cuts_and_gaps_partition hall_width merged HW Hw) as (_ & _ & Hapart).
  apply list_elem_of_lookup in Hseg as [k Hk]. apply list_elem_of_lookup in Hm as [j Hj].
  apply (Hapart (length merged + k)%nat j).
  - apply lookup_lt_Some in Hj. lia.
  - by rewrite lookup_app_r, Nat.add_comm, Nat.add_sub by lia.
  - by rewrite lookup_app_l by (by eapply lookup_lt_Some).
Qed.

(** X11.  The leftover segments of a row keep clear of the cuts of its
    columns: for every hall width > 0, a leftover segment shares at most
    an end point with the cut that any column of the row leaves. *)
Theorem leftover_clear_of_cuts (hall_width : Q) (row_cols : list column)
    (seg : interval) (c : column) (cut : interval) :
  0 < hall_width ->
  seg ∈ leftover_segments hall_width (merge_intervals (cuts_of hall_width row_cols)) ->
  c ∈ row_cols -> clamp_cut hall_width c = Some cut ->
  apart seg cut.
Proof.
  intros HW Hseg Hc Hcut.
  pose proof (merged_cuts_within hall_width row_cols) as Hw.
  assert (Hin : cut ∈ cuts_of hall_width row_cols).
  { apply list_elem_of_omap. by exists c. }
  destruct (merge_intervals_contains _ _ Hin) as (m & Hm & H1 & H2).
  destruct (leftover_apart_merged _ _ _ _ HW Hw Hseg Hm) as [Ha|Ha];
    [left|right]; lra.
Qed.

Lemma leftover_clear_of_cuts_witness :
  apart (0, 3) (3, 7) /\ apart (7, 10) (3, 7).
Proof.
  split.
  - apply (leftover_clear_of_cuts 10 [("C2"%string, 5, 1, 2)] (0, 3) ("C2"%string, 5, 1, 2)).
    + reflexivity.
    + vm_compute. apply list_elem_of_here.
    + apply list_elem_of_here.
    + vm_compute. reflexivity.
  - apply (leftover_clear_of_cuts 10 [("C2"%string, 5, 1, 2)] (7, 10) ("C2"%string, 5, 1, 2)).
    + reflexivity.
    + vm_compute. apply list_elem_of_further, list_elem_of_here.
    + apply list_elem_of_here.
    + vm_compute. reflexivity.
Defined.

(** ** Rows and columns together *)

Lemma row_data_lookup rows columns (columns_to_ignore : gset string) j :
  row_data rows columns columns_to_ignore !! j
  = mark_row (custom_cols columns columns_to_ignore) <$> rows !! j.
Proof.
  unfold row_data. revert j. induction rows as [|r rows IH]; intros j; [done|].
  destruct j as [|j]; [done|]. simpl. apply IH.
Qed.

Lemma mark_row_cols_elem c r columns (columns_to_ignore : gset string) :
  (c ∈ (mark_row (custom_cols columns columns_to_ignore) r).2) <->
  c ∈ columns /\ (col_label c ∉ columns_to_ignore) /\ in_span (col_cy c) r.
Proof.
  destruct r as [[i ys] ye]. simpl. apply row_cols_elem.
Qed.

(** X12.  On the rows that [build_rows] returns (total length > 0,
    default height > 0, no negative forced height), [row_data] lists a
    column with at most one row; and a column that is not ignored, with
    its centre y in [0, total_length), is listed with a row. *)
Theorem column_listed_with_one_row (fuel : nat) (total_length default_height : Q)
    (forced_heights : gmap Z Q) (rows : list row) (columns : list column)
    (columns_to_ignore : gset string) (c : column) :
  0 < total_length -> 0 < default_height ->
  map_Forall (fun _ h => 0 <= h) forced_heights ->
  build_rows fuel total_length default_height forced_heights = Ok rows ->
  (forall j k e1 e2,
     row_data rows columns columns_to_ignore !! j = Some e1 ->
     row_data rows columns columns_to_ignore !! k = Some e2 ->
     c ∈ e1.2 -> c ∈ e2.2 -> j = k) /\
  (c ∈ columns -> col_label c ∉ columns_to_ignore ->
   0 <= col_cy c -> col_cy c < total_length ->
   exists e, e ∈ row_data rows columns columns_to_ignore /\ c ∈ e.2).
Proof.
  intros Ht Hd Hf Hok.
  destruct (build_rows_bands _ _ _ _ _ Ht Hd Hf Hok) as [Hdis Hcov]. split.
  - intros j k e1 e2. rewrite !row_data_lookup.
    destruct (rows !! j) as [r1|] eqn:E1; [|done].
    destruct (rows !! k) as [r2|] eqn:E2; [|done].
    intros [= <-] [= <-] H1 H2.
    apply mark_row_cols_elem in H1 as (_ & _ & H1).
    apply mark_row_cols_elem in H2 as (_ & _ & H2).
    destruct (decide (j = k)) as [|Hne]; [done|].
    by destruct (Hdis j k r1 r2 (col_cy c) Hne E1 E2).
  - intros Hc Hl H0 H1.
    destruct (proj1 (Hcov (col_cy c)) (conj H0 H1)) as (r & Hr & Hin).
    exists (mark_row (custom_cols columns columns_to_ignore) r). split.
    + apply row_data_elem. by exists r.
    + by apply mark_row_cols_elem.
Qed.

Lemma column_listed_with_one_row_witness :
  (forall j k e1 e2,
     row_data [(1%Z, 0, 2); (2%Z, 2, 4); (3%Z, 4, 5)]
       [("C2"%string, 5, 2, 1)] {["C1"%string]} !! j = Some e1 ->
     row_data [(1%Z, 0, 2); (2%Z, 2, 4); (3%Z, 4, 5)]
       [("C2"%string, 5, 2, 1)] {["C1"%string]} !! k = Some e2 ->
     ("C2"%string, 5, 2, 1) ∈ e1.2 -> ("C2"%string, 5, 2, 1) ∈ e2.2 -> j = k) /\
  (("C2"%string, 5, 2, 1) ∈ [("C2"%string, 5, 2, 1)] ->
   col_label ("C2"%string, 5, 2, 1) ∉ ({["C1"%string]} : gset string) ->
   0 <= col_cy ("C2"%string, 5, 2, 1) -> col_cy ("C2"%string, 5, 2, 1) < 5 ->
   exists e, e ∈ row_data [(1%Z, 0, 2); (2%Z, 2, 4); (3%Z, 4, 5)]
                   [("C2"%string, 5, 2, 1)] {["C1"%string]} /\
             ("C2"%string, 5, 2, 1) ∈ e.2).
Proof.
  apply (column_listed_with_one_row 10 5 2 ∅).
  - reflexivity.
  - reflexivity.
  - apply map_Forall_empty.
  - vm_compute. reflexivity.
Defined.

(** X13.  On the rows that [build_rows] returns for a total length > 0,
    the y axis of the plot ends at the total length; on no rows it ends
    at 0. *)
Theorem plot_y_max_is_total_length (fuel : nat) (total_length default_height : Q)
    (forced_heights : gmap Z Q) (rows : list row) (hall_width : Q)
    (columns : list column) (columns_to_ignore : gset string) :
  0 < total_length ->
  build_rows fuel total_length default_height forced_heights = Ok rows ->
  plot_y_max (plot_prayer_hall rows hall_width columns columns_to_ignore) == total_length /\
  plot_y_max (plot_prayer_hall [] hall_width columns columns_to_ignore) = 0.
Proof.
  intros Ht Hok. split; [|reflexivity].
  destruct (build_rows_loop_spec _ _ _ _ _ _ _ Hok) as (_ & Hb & Hl).
  assert (Hle : last_end 0 rows <= total_length).
  { eapply last_end_le; [|exact Hb]. lra. }
  change (plot_y_max (plot_prayer_hall rows hall_width columns columns_to_ignore))
    with (last_end 0 rows). lra.
Qed.

Lemma plot_y_max_is_total_length_witness :
  plot_y_max (plot_prayer_hall [(1%Z, 0, 2); (2%Z, 2, 1); (3%Z, 1, 3); (4%Z, 3, 5)]
                10 [("C2"%string, 5, 2, 1)] {["C1"%string]}) == 5 /\
  plot_y_max (plot_prayer_hall [] 10 [("C2"%string, 5, 2, 1)] {["C1"%string]}) = 0.
Proof.
  apply (plot_y_max_is_total_length 10 5 2 {[2%Z := -1]}).
  - reflexivity.
  - vm_compute. reflexivity.
Defined.

(** X14.  Ignoring more labels only takes columns away from the rows:
    with a larger ignored set every row's column list is contained in the
    one it had, a row that is still marked as intersected was marked so
    before, and when every column's label is ignored no row is marked. *)
Theorem ignoring_more_marks_less (columns : list column)
    (ignored ignored' : gset string) (r : row) :
  ignored ⊆ ignored' ->
  let e := mark_row (custom_cols columns ignored) r in
  let e' := mark_row (custom_cols columns ignored') r in
  (forall c, c ∈ e'.2 -> c ∈ e.2) /\
  (e'.1.2 = true -> e.1.2 = true) /\
  ((forall c, c ∈ columns -> col_label c ∈ ignored') -> e'.1.2 = false /\ e'.2 = []).
Proof.
  intros Hsub e e'.
  assert (Hcols : forall c, c ∈ e'.2 -> c ∈ e.2).
  { intros c Hc. apply mark_row_cols_elem in Hc as (Hc & Hl & Hin).
    apply mark_row_cols_elem. split_and!; [done| |done]. set_solver. }
  assert (Hb : forall ign, (mark_row (custom_cols columns ign) r).1.2
                           = py_bool (mark_row (custom_cols columns ign) r).2).
  { intros ign. by destruct r as [[i ys] ye]. }
  split_and!; [done| |].
  - subst e e'. rewrite !Hb, !py_bool_true. intros [c Hc]. exists c. by apply Hcols.
  - intros Hall. assert (E : e'.2 = []).
    { destruct (e'.2) as [|c l] eqn:El; [done|]. exfalso.
      assert (Hc : c ∈ e'.2) by (rewrite El; apply elem_of_cons; by left).
      apply mark_row_cols_elem in Hc as (Hc & Hl & _). by apply Hl, Hall. }
    split; [|done]. subst e'. by rewrite Hb, E.
Qed.

Lemma ignoring_more_marks_less_witness :
  let columns := [("C1"%string, 2, 2, 1); ("C2"%string, 5, 1, 2)] in
  let e := mark_row (custom_cols columns {["C1"%string]}) (1%Z, 0, 5) in
  let e' := mark_row (custom_cols columns ({["C1"%string]} ∪ {["C2"%string]})) (1%Z, 0, 5) in
  (forall c, c ∈ e'.2 -> c ∈ e.2) /\
  (e'.1.2 = true -> e.1.2 = true) /\
  ((forall c, c ∈ columns -> col_label c ∈ ({["C1"%string]} ∪ {["C2"%string]} : gset string)) ->
   e'.1.2 = false /\ e'.2 = []).
Proof.
  apply (ignoring_more_marks_less [("C1"%string, 2, 2, 1); ("C2"%string, 5, 1, 2)]
           {["C1"%string]} ({["C1"%string]} ∪ {["C2"%string]}) (1%Z, 0, 5)).
  set_solver.
Defined.

(** ** More on parsing *)

Lemma lstrip_all_space s : string_forall py_isspace s = true -> lstrip s = EmptyString.
Proof.
  induction s as [|c s IH]; simpl; [done|].
  intros [Hc Hs]%andb_true_iff. rewrite Hc. by apply IH.
Qed.

Lemma split_length sep s : length (split sep s) = S (count_char sep s).
Proof.
  induction s as [|c s IH]; simpl; [done|].
  destruct (Ascii.eqb c sep); simpl; [by rewrite IH|].
  destruct (split sep s) as [|p ps]; simpl in *; [done|lia].
Qed.

Lemma nonblank_lines_cons l lines :
  nonblank_lines (l :: lines)
  = if is_empty_string (strip l) then nonblank_lines lines
    else strip l :: nonblank_lines lines.
Proof. unfold nonblank_lines. simpl. by destruct (is_empty_string (strip l)). Qed.

Section MoreParsingFacts.

Variable py_int : string -> option Z.
Variable py_float : string -> option Q.

Lemma parse_columns_loop_ok_iff lines columns res :
  parse_columns_loop py_float lines columns = Ok res <->
  exists parsed,
    Forall2 (fun line c => parse_column_line py_float line = Ok c)
      (nonblank_lines lines) parsed /\
    res = columns ++ parsed.
Proof.
  revert columns. induction lines as [|l lines IH]; intros columns.
  - simpl. split.
    + intros [= <-]. exists []. split; [constructor|by rewrite app_nil_r].
    + intros (parsed & Hp & ->). apply Forall2_nil_inv_l in Hp as ->.
      by rewrite app_nil_r.
  - rewrite nonblank_lines_cons. cbn [parse_columns_loop].
    destruct (is_empty_string (strip l)); [apply IH|].
    destruct (parse_column_line py_float (strip l)) as [c|e|] eqn:E; simpl.
    + rewrite IH. split.
      * intros (parsed & Hp & ->). exists (c :: parsed).
        split; [by constructor|by rewrite <- app_assoc].
      * intros (parsed & Hp & ->). apply Forall2_cons_inv_l in Hp as (c' & parsed' & Hc & Hp & ->).
        rewrite E in Hc. injection Hc as <-. exists parsed'.
        split; [done|by rewrite <- app_assoc].
    + split; [discriminate|]. intros (parsed & Hp & _).
      apply Forall2_cons_inv_l in Hp as (c' & parsed' & Hc & _). congruence.
    + split; [discriminate|]. intros (parsed & Hp & _).
      apply Forall2_cons_inv_l in Hp as (c' & parsed' & Hc & _). congruence.
Qed.

(** X15.  [parse_columns] returns a column list exactly when every line
    of the stripped text that is not blank parses, and the list then holds
    one column per such line, in the order of the lines. *)
Theorem parse_columns_one_per_line (txt : string) (columns : list column) :
  parse_columns py_float txt = Ok columns <->
  Forall2 (fun line c => parse_column_line py_float line = Ok c)
    (nonblank_lines (splitlines (strip txt))) columns.
Proof.
  unfold parse_columns. rewrite parse_columns_loop_ok_iff. split.
  - by intros (parsed & Hp & ->).
  - intros Hp. by exists columns.
Qed.

Lemma parse_columns_loop_first_error lines columns good bad rest e :
  nonblank_lines lines = good ++ bad :: rest ->
  Forall (fun l => exists c, parse_column_line py_float l = Ok c) good ->
  parse_column_line py_float bad = Raise e ->
  parse_columns_loop py_float lines columns = Raise e.
Proof.
  revert columns good. induction lines as [|l lines IH]; intros columns good Hl Hgood Hbad.
  - by destruct good.
  - rewrite nonblank_lines_cons in Hl. cbn [parse_columns_loop].
    destruct (is_empty_string (strip l)); [by apply (IH _ good)|].
    destruct good as [|g good]; simpl in Hl; injection Hl as -> Hl.
    + by rewrite Hbad.
    + apply Forall_cons in Hgood as [[c Hc] Hgood]. rewrite Hc. simpl.
      by apply (IH _ good).
Qed.

(** X16.  [parse_columns] stops at the first line that fails: when the
    lines that are not blank parse up to one that raises, the call raises
    that very error, whatever the lines behind it hold. *)
Theorem parse_columns_first_error (txt : string) (good : list string)
    (bad : string) (rest : list string) (e : exn) :
  nonblank_lines (splitlines (strip txt)) = good ++ bad :: rest ->
  Forall (fun l => exists c, parse_column_line py_float l = Ok c) good ->
  parse_column_line py_float bad = Raise e ->
  parse_columns py_float txt = Raise e.
Proof. intros. by eapply parse_columns_loop_first_error. Qed.

(** X17.  A text of white space only, the empty text included, has no
    columns and no forced heights: [parse_columns] returns the empty list
    and [parse_forced_rows] the empty dict. *)
Theorem blank_text_parses_to_nothing (txt : string) :
  string_forall py_isspace txt = true ->
  parse_columns py_float txt = Ok [] /\
  parse_forced_rows py_int py_float txt = Parsed ∅.
Proof.
  intros Hs. unfold parse_columns, parse_forced_rows, strip.
  by rewrite (lstrip_all_space _ Hs).
Qed.

(** X18.  Every line that [parse_columns] accepts holds exactly three
    commas: when the call returns, each line that is not blank has three
    commas, and there are as many columns as such lines. *)
Theorem parse_columns_three_commas (txt : string) (columns : list column) :
  parse_columns py_float txt = Ok columns ->
  Forall (fun line => count_char ","%char line = 3%nat)
    (nonblank_lines (splitlines (strip txt))) /\
  length columns = length (nonblank_lines (splitlines (strip txt))).
Proof.
  intros Hok. apply parse_columns_one_per_line in Hok. split.
  - apply Forall_forall. intros line Hline.
    apply list_elem_of_lookup in Hline as [j Hj].
    destruct (Forall2_lookup_l _ _ _ j line Hok Hj) as (c & _ & Hc).
    apply parse_column_line_ok in Hc. rewrite split_length in Hc. lia.
  - symmetry. by eapply Forall2_length.
Qed.

End MoreParsingFacts.

Lemma parse_columns_first_error_witness :
  parse_columns (fun _ => Some 1)
    ("C1, 1, 2, 3" ++ String "010" ("C2, 5, 1" ++ String "010" "C3,1,2,3,4"))%string
  = Raise (ValueError (InvalidColumnLine "C2, 5, 1")).
Proof.
  apply (parse_columns_first_error (fun _ => Some 1) _
           ["C1, 1, 2, 3"%string] "C2, 5, 1" ["C3,1,2,3,4"%string]).
  - vm_compute. reflexivity.
  - repeat constructor. by eexists.
  - reflexivity.
Defined.

Lemma blank_text_parses_to_nothing_witness :
  parse_columns (fun _ => Some 1) (String " " (String "010" (String "009" EmptyString))) = Ok [] /\
  parse_forced_rows (fun _ => Some 1%Z) (fun _ => Some 1)
    (String " " (String "010" (String "009" EmptyString))) = Parsed ∅.
Proof.
  apply (blank_text_parses_to_nothing (fun _ => Some 1%Z) (fun _ => Some 1)).
  reflexivity.
Defined.

Lemma parse_columns_three_commas_witness :
  Forall (fun line => count_char ","%char line = 3%nat)
    (nonblank_lines (splitlines (strip ("C1, 1, 2, 3" ++ String "010" " C2,5,1,2 ")%string))) /\
  length [("C1"%string, 1, 1, circumference_to_radius 1);
          ("C2"%string, 1, 1, circumference_to_radius 1)]
  = length (nonblank_lines (splitlines (strip ("C1, 1, 2, 3" ++ String "010" " C2,5,1,2 ")%string))).
Proof.
  apply (parse_columns_three_commas (fun _ => Some 1)).
  reflexivity.
Defined.

(** ** The forced row heights *)

Lemma forced_of_pairs_other out pairs i :
  Forall (fun p : Z * Q => p.1 <> i) pairs -> forced_of_pairs out pairs !! i = out !! i.
Proof.
  intros Hp. revert out. induction Hp as [|p pairs Hne _ IH]; intros out; [done|].
  unfold forced_of_pairs in *. simpl. rewrite IH. by apply lookup_insert_ne.
Qed.

(** The last pair with the index decides. *)
Lemma forced_of_pairs_last out before i h after :
  Forall (fun p : Z * Q => p.1 <> i) after ->
  forced_of_pairs out (before ++ (i, h) :: after) !! i = Some h.
Proof.
  intros Hafter. unfold forced_of_pairs. rewrite foldl_app. simpl.
  rewrite (forced_of_pairs_other _ after i Hafter). apply lookup_insert_eq.
Qed.

Lemma forced_of_pairs_key out pairs i h :
  forced_of_pairs out pairs !! i = Some h -> (i, h) ∈ pairs \/ out !! i = Some h.
Proof.
  revert out. induction pairs as [|[k v] pairs IH]; intros out; [by right|].
  unfold forced_of_pairs in *. simpl. intros Hl.
  destruct (IH _ Hl) as [Hin|Hout].
  - left. apply elem_of_cons. by right.
  - destruct (decide (k = i)) as [->|Hne].
    + rewrite lookup_insert_eq in Hout. injection Hout as ->. left. apply elem_of_cons. by left.
    + rewrite lookup_insert_ne in Hout by done. by right.
Qed.

Section ForcedRowsFacts.

Variable py_int : string -> option Z.
Variable py_float : string -> option Q.

Lemma parse_forced_rows_loop_iff lines out m :
  parse_forced_rows_loop py_int py_float lines out = Parsed m <->
  exists pairs,
    Forall2 (fun line p => parse_forced_row_line py_int py_float line = Parsed p)
      (nonblank_lines lines) pairs /\
    m = forced_of_pairs out pairs.
Proof.
  revert out. induction lines as [|l lines IH]; intros out.
  - simpl. split.
    + intros [= <-]. exists []. split; [constructor|done].
    + intros (pairs & Hp & ->). by apply Forall2_nil_inv_l in Hp as ->.
  - rewrite nonblank_lines_cons. cbn [parse_forced_rows_loop].
    destruct (is_empty_string (strip l)); [apply IH|].
    destruct (parse_forced_row_line py_int py_float (strip l)) as [[i h]|why] eqn:E.
    + rewrite IH. split.
      * intros (pairs & Hp & ->). exists ((i, h) :: pairs). split; [by constructor|done].
      * intros (pairs & Hp & ->).
        apply Forall2_cons_inv_l in Hp as (p & pairs' & Hc & Hp & ->).
        rewrite E in Hc. injection Hc as <-. by exists pairs'.
    + split; [discriminate|]. intros (pairs & Hp & _).
      apply Forall2_cons_inv_l in Hp as (p & pairs' & Hc & _). congruence.
Qed.

(** X19.  The dict that [parse_forced_rows] returns holds, for an index,
    the height of the last line that gives this index: a line with index
    i and height h behind which no line gives i again makes the dict map i
    to h; and every entry of the dict comes from a line of the text. *)
Theorem parse_forced_rows_last_wins (txt : string) (m : gmap Z Q) :
  parse_forced_rows py_int py_float txt = Parsed m ->
  (forall before line after i h,
     nonblank_lines (splitlines (strip txt)) = before ++ line :: after ->
     parse_forced_row_line py_int py_float line = Parsed (i, h) ->
     Forall (fun l => forall h', parse_forced_row_line py_int py_float l <> Parsed (i, h')) after ->
     m !! i = Some h) /\
  (forall i h, m !! i = Some h ->
     exists line, line ∈ nonblank_lines (splitlines (strip txt)) /\
                  parse_forced_row_line py_int py_float line = Parsed (i, h)).
Proof.
  unfold parse_forced_rows. rewrite parse_forced_rows_loop_iff.
  intros (pairs & Hp & ->). split.
  - intros before line after i h Hl Hline Hafter. rewrite Hl in Hp.
    apply Forall2_app_inv_l in Hp as (pb & pr & _ & Hp & ->).
    apply Forall2_cons_inv_l in Hp as (p & pa & Hc & Hpa & ->).
    rewrite Hline in Hc. injection Hc as <-.
    apply forced_of_pairs_last.
    eapply Forall2_Forall_r; [exact Hpa|].
    eapply Forall_impl; [exact Hafter|]. intros l Hne [k v] Hkv Hk. simpl in Hk. subst k.
    by apply (Hne v).
  - intros i h Hl. apply forced_of_pairs_key in Hl as [Hin|Hout]; [|done].
    apply list_elem_of_lookup in Hin as [j Hj].
    destruct (Forall2_lookup_r _ _ _ _ _ Hp Hj) as (line & Hline & Hparse).
    exists line. split; [by eapply list_elem_of_lookup_2|done].
Qed.

(** X20.  A forced row line needs a comma: without one the explicit test
    raises.  With one or more commas only the first two fields count: when
    they are an integer and a number the line is accepted, whatever comes
    behind the second field. *)
Theorem parse_forced_row_line_fields (line : string) :
  (count_char ","%char line = 0%nat ->
   parse_forced_row_line py_int py_float line
   = ForcedValueError (InvalidForcedRowLine line)) /\
  (forall p0 p1 rest i h,
     split ","%char line = p0 :: p1 :: rest ->
     py_int (strip p0) = Some i -> py_float (strip p1) = Some h ->
     parse_forced_row_line py_int py_float line = Parsed (i, h)).
Proof.
  unfold parse_forced_row_line. rewrite length_map, split_length. split.
  - by intros ->.
  - intros p0 p1 rest i h Hs Hi Hh.
    assert (Hc : count_char ","%char line = S (length rest)).
    { pose proof (split_length ","%char line) as Hl. rewrite Hs in Hl. simpl in Hl. lia. }
    rewrite Hc, Hs. simpl. by rewrite Hi, Hh.
Qed.

End ForcedRowsFacts.

Lemma parse_forced_rows_last_wins_witness :
  (forall before line after i h,
     nonblank_lines (splitlines (strip ("3, 1" ++ String "010" "3, 2, x")%string))
       = before ++ line :: after ->
     parse_forced_row_line int_of_digits float_of_digits line = Parsed (i, h) ->
     Forall (fun l => forall h',
               parse_forced_row_line int_of_digits float_of_digits l <> Parsed (i, h')) after ->
     ({[3%Z := inject_Z 2]} : gmap Z Q) !! i = Some h) /\
  (forall i h, ({[3%Z := inject_Z 2]} : gmap Z Q) !! i = Some h ->
     exists line,
       line ∈ nonblank_lines (splitlines (strip ("3, 1" ++ String "010" "3, 2, x")%string)) /\
       parse_forced_row_line int_of_digits float_of_digits line = Parsed (i, h)).
Proof.
  apply (parse_forced_rows_last_wins int_of_digits float_of_digits
           ("3, 1" ++ String "010" "3, 2, x")%string).
  vm_compute. reflexivity.
Defined.

(** ** The plot button *)

Lemma row_summary_columns_line hall_width (e : row_entry) labels :
  ColumnsLine labels ∈ row_summary hall_width e ->
  e.1.2 = true /\ labels = map col_label e.2.
Proof.
  destruct e as [[[[i ys] ye] b] rc]. unfold row_summary. simpl.
  intros [He|Hin]%elem_of_cons; [discriminate|]. destruct b; simpl in Hin.
  - apply elem_of_cons in Hin as [[= ->]|Hin]; [done|].
    apply elem_of_cons in Hin as [He|Hin]; [discriminate|].
    apply list_elem_of_In, in_map_iff in Hin as (seg & He & _). discriminate.
  - apply list_elem_of_singleton in Hin. discriminate.
Qed.

Lemma plot_printed_columns_line rows hall_width columns
    (columns_to_ignore : gset string) labels :
  ColumnsLine labels
    ∈ plot_printed (plot_prayer_hall rows hall_width columns columns_to_ignore) ->
  exists i ys ye rc,
    (i, ys, ye, true, rc) ∈ row_data rows columns columns_to_ignore /\
    labels = map col_label rc.
Proof.
  simpl. rewrite list_elem_of_In, in_flat_map.
  intros ([[[[i ys] ye] b] rc] & He & Hin).
  apply list_elem_of_In in He, Hin.
  apply row_summary_columns_line in Hin as [Hb ->]. simpl in Hb. subst b.
  by exists i, ys, ye, rc.
Qed.

Section OnPlotFacts.

Variable py_int : string -> option Z.
Variable py_float : string -> option Q.

(** A plot comes only from five fields that parse and a row builder that
    returns. *)
Lemma on_plot_plotted fuel length_var width_var def_h_var forced_str col_str p :
  on_plot py_int py_float fuel length_var width_var def_h_var forced_str col_str = Plotted p ->
  exists L W def_h forced_heights columns rows,
    py_float length_var = Some L /\ py_float width_var = Some W /\
    py_float def_h_var = Some def_h /\
    parse_forced_rows py_int py_float forced_str = Parsed forced_heights /\
    parse_columns py_float col_str = Ok columns /\
    build_rows fuel L def_h forced_heights = Ok rows /\
    p = plot_prayer_hall rows W columns {["C1"%string]}.
Proof.
  unfold on_plot, float_of.
  destruct (py_float length_var) as [L|] eqn:E1; [|discriminate].
  destruct (py_float width_var) as [W|] eqn:E2; [|discriminate].
  destruct (py_float def_h_var) as [def_h|] eqn:E3; [|discriminate].
  destruct (parse_forced_rows py_int py_float forced_str) as [fh|] eqn:E4; [|discriminate].
  destruct (parse_columns py_float col_str) as [columns| |] eqn:E5; try discriminate.
  destruct (build_rows fuel L def_h fh) as [rows| |] eqn:E6; try discriminate.
  intros [= <-]. exists L, W, def_h, fh, columns, rows. split_and!; done.
Qed.

(** X21.  Whatever [on_plot] plots, the label C1 is in no row's printed
    column list, and a row is printed with a column list only when a
    column with another label has its centre in the row's band. *)
Theorem on_plot_ignores_C1 (fuel : nat)
    (length_var width_var def_h_var forced_str col_str : string) (p : plot)
    (labels : list string) :
  on_plot py_int py_float fuel length_var width_var def_h_var forced_str col_str = Plotted p ->
  ColumnsLine labels ∈ plot_printed p ->
  ("C1"%string ∉ labels) /\ labels <> [].
Proof.
  intros Hp Hl.
  apply on_plot_plotted in Hp as (L & W & d & fh & columns & rows & _ & _ & _ & _ & _ & _ & ->).
  apply plot_printed_columns_line in Hl as (i & ys & ye & rc & He & ->).
  apply row_data_entry in He as (_ & Hb & Hrc). split.
  - rewrite list_elem_of_In, in_map_iff. intros (c & Hc & Hin).
    apply list_elem_of_In in Hin. rewrite Hrc in Hin.
    apply row_cols_elem in Hin as (_ & Hne & _). apply Hne. rewrite Hc. set_solver.
  - by destruct rc.
Qed.

(** X22.  When the five fields parse, the hall length is > 0, the default
    height is not positive and no forced height is positive, [on_plot]
    draws no plot: the row builder never returns, so [plot_prayer_hall]
    is not reached, however many turns the loop is given. *)
Theorem on_plot_draws_nothing (fuel : nat)
    (length_var width_var def_h_var forced_str col_str : string)
    (L W def_h : Q) (forced_heights : gmap Z Q) (columns : list column) :
  py_float length_var = Some L -> py_float width_var = Some W ->
  py_float def_h_var = Some def_h ->
  parse_forced_rows py_int py_float forced_str = Parsed forced_heights ->
  parse_columns py_float col_str = Ok columns ->
  0 < L -> def_h <= 0 -> map_Forall (fun _ h => h <= 0) forced_heights ->
  is_plotted
    (on_plot py_int py_float fuel length_var width_var def_h_var forced_str col_str)
  = false.
Proof.
  intros HL HW Hd Hf Hc HL0 Hd0 Hf0. unfold on_plot, float_of.
  rewrite HL, HW, Hd, Hf, Hc.
  unfold build_rows. by rewrite build_rows_loop_diverges; [| | |lra|lra].
Qed.

End OnPlotFacts.

Lemma on_plot_ignores_C1_witness :
  ("C1"%string ∉ ["C2"%string]) /\ ["C2"%string] <> [].
Proof.
  apply (on_plot_ignores_C1 int_of_digits float_of_digits 10
           "5" "10" "2" "2, 1" ("C1,2,2,1" ++ String "010" "C2,5,1,2")%string
           (plot_prayer_hall [(1%Z, 0, 2); (2%Z, 2, 3); (3%Z, 3, 5)] 10
              [("C1"%string, 2, 2, circumference_to_radius 1);
               ("C2"%string, 5, 1, circumference_to_radius 2)] {["C1"%string]})).
  - vm_compute. reflexivity.
  - vm_compute. apply list_elem_of_further, list_elem_of_here.
Defined.

Lemma on_plot_draws_nothing_witness :
  is_plotted
    (on_plot int_of_digits float_of_digits 1000 "5" "10" "0" EmptyString "C2,5,1,2")
  = false.
Proof.
  apply (on_plot_draws_nothing int_of_digits float_of_digits 1000
           "5" "10" "0" EmptyString "C2,5,1,2"
           5 10 0 ∅ [("C2"%string, 5, 1, circumference_to_radius 2)]).
  - reflexivity.
  - reflexivity.
  - reflexivity.
  - reflexivity.
  - reflexivity.
  - reflexivity.
  - discriminate.
  - apply map_Forall_empty.
Defined.

(** ** The radius of a column *)

(** X24.  A column whose circumference is not positive has a radius that
    is not positive and cuts nothing out of any row, whatever the hall
    width and wherever the column stands. *)
Theorem nonpositive_circumference_cuts_nothing (circum_m : Q) :
  circum_m <= 0 ->
  circumference_to_radius circum_m <= 0 /\
  forall hall_width lbl cx cy,
    clamp_cut hall_width (lbl, cx, cy, circumference_to_radius circum_m) = None.
Proof.
  intros Hc.
  assert (Hr : circumference_to_radius circum_m <= 0).
  { unfold circumference_to_radius, Qdiv.
    assert (Hinv : 0 < / (2 * np_pi)) by reflexivity.
    rewrite <- (Qmult_0_l (/ (2 * np_pi))). apply Qmult_le_compat_r; [done|lra]. }
  split; [done|]. intros hall_width lbl cx cy. apply clamp_cut_none. auto.
Qed.

Lemma nonpositive_circumference_cuts_nothing_witness :
  circumference_to_radius (-1) <= 0 /\
  forall hall_width lbl cx cy,
    clamp_cut hall_width (lbl, cx, cy, circumference_to_radius (-1)) = None.
Proof.
  apply (nonpositive_circumference_cuts_nothing (-1)). discriminate.
Defined.

(** ** What the summary prints *)

Lemma row_summary_leftover_line hall_width (e : row_entry) x0 x1 width :
  LeftoverLine x0 x1 width ∈ row_summary hall_width e ->
  e.1.2 = true /\
  (x0, x1) ∈ leftover_segments hall_width (merge_intervals (cuts_of hall_width e.2)) /\
  width = x1 - x0.
Proof.
  destruct e as [[[[i ys] ye] b] rc]. unfold row_summary. simpl.
  intros [He|Hin]%elem_of_cons; [discriminate|]. destruct b; simpl in Hin.
  - apply elem_of_cons in Hin as [He|Hin]; [discriminate|].
    apply elem_of_cons in Hin as [He|Hin]; [discriminate|].
    apply list_elem_of_In, in_map_iff in Hin as ([a b] & [= -> -> ->] & Hin).
    by apply list_elem_of_In in Hin.
  - apply list_elem_of_singleton in Hin. discriminate.
Qed.

(** X25.  Every leftover line that [plot_prayer_hall] prints (hall width
    > 0) shows a segment inside the hall with a positive width, and the
    width shown is the difference of its ends. *)
Theorem printed_leftover_inside_hall (rows : list row) (hall_width : Q)
    (columns : list column) (columns_to_ignore : gset string) (x0 x1 width : Q) :
  0 < hall_width ->
  LeftoverLine x0 x1 width
    ∈ plot_printed (plot_prayer_hall rows hall_width columns columns_to_ignore) ->
  0 <= x0 /\ x0 < x1 /\ x1 <= hall_width /\ width = x1 - x0 /\ 0 < width.
Proof.
  intros HW. simpl. rewrite list_elem_of_In, in_flat_map.
  intros (e & _ & Hin). apply list_elem_of_In in Hin.
  apply row_summary_leftover_line in Hin as (_ & Hseg & ->).
  destruct (cuts_and_gaps_partition hall_width _ HW (merged_cuts_within hall_width e.2))
    as (Hb & _ & _).
  rewrite Forall_forall in Hb.
  destruct (Hb (x0, x1)) as (H0 & H1 & H2); [apply elem_of_app; by right|].
  simpl in *. split_and!; try done. lra.
Qed.

Lemma printed_leftover_inside_hall_witness :
  0 <= 0 /\ 0 < 3 /\ 3 <= 10 /\ (3 - 0) = 3 - 0 /\ 0 < 3 - 0.
Proof.
  apply (printed_leftover_inside_hall [(1%Z, 0, 5)] 10
           [("C2"%string, 5, 1, 2)] {["C1"%string]} 0 3 (3 - 0)).
  - reflexivity.
  - vm_compute. do 3 apply list_elem_of_further. apply list_elem_of_here.
Defined.

Lemma list_filter_sublist {A} (p : A -> bool) l : sublist (List.filter p l) l.
Proof.
  induction l as [|x l IH]; simpl; [constructor|].
  destruct (p x); by constructor.
Qed.

(** X26.  [row_data] keeps the rows as they are and in their order, one
    entry per row, and lists with a row some of the columns in the order
    in which they were given. *)
Theorem row_data_keeps_order (rows : list row) (columns : list column)
    (columns_to_ignore : gset string) :
  map (fun e : row_entry => (e.1.1.1.1, e.1.1.1.2, e.1.1.2))
    (row_data rows columns columns_to_ignore) = rows /\
  Forall (fun e : row_entry => sublist e.2 columns)
    (row_data rows columns columns_to_ignore).
Proof.
  unfold row_data. split.
  - induction rows as [|[[i ys] ye] rows IH]; simpl; [done|]. by rewrite IH.
  - apply Forall_forall. intros e He. apply list_elem_of_In, in_map_iff in He as (r & <- & _).
    destruct r as [[i ys] ye]. simpl.
    etrans; [apply list_filter_sublist|]. apply list_filter_sublist.
Qed.
